(** * Unclutter page view: DOM style rewriting and CSS override passes

    A shallow embedding of
      - source/content-script/style-changes/iterateDOM.js
        (the traversal that collects text containers, the override rules,
        the background colours, and the restore operation), and
      - the postcss plugins behind [getCssOverride]
        (media breakpoint scaling and url() rewriting),
    with the properties of the design document stated over them. *)

From Stdlib Require Import String Ascii ZArith QArith Qround List Lia Bool.
From Stdlib Require Import DecimalString.
From stdpp Require Import base gmap strings list.

Open Scope string_scope.
Open Scope list_scope.

(** ** JavaScript strings

    Strings are sequences of 8-bit characters; the source only ever looks for
    ASCII words, digits and punctuation in them. *)
Module JS.

(** [s.startsWith(p)] *)
Fixpoint startsWith (p s : string) : bool :=
  match p, s with
  | EmptyString, _ => true
  | String a p', String b s' => if Ascii.eqb a b then startsWith p' s' else false
  | String _ _, EmptyString => false
  end.

(** [s.includes(w)] *)
Fixpoint includes (w s : string) : bool :=
  startsWith w s ||
  match s with
  | EmptyString => false
  | String _ s' => includes w s'
  end.

(** [s.indexOf(w)] *)
Fixpoint indexOf (w s : string) : option nat :=
  if startsWith w s then Some 0
  else match s with
       | EmptyString => None
       | String _ s' => option_map S (indexOf w s')
       end.

Fixpoint take (n : nat) (s : string) : string :=
  match n, s with
  | S n', String c s' => String c (take n' s')
  | _, _ => EmptyString
  end.

Fixpoint drop (n : nat) (s : string) : string :=
  match n, s with
  | S n', String _ s' => drop n' s'
  | _, _ => s
  end.

(** The replacement text of [String.prototype.replace] with a string pattern
    (GetSubstitution without captures): [$$] is a dollar sign, [$&] the
    matched text, [$`] the text before the match, [$'] the text after it;
    every other character stands for itself. *)
Fixpoint getSubstitution (matched before after repl : string) : string :=
  match repl with
  | EmptyString => EmptyString
  | String c r =>
      if Ascii.eqb c "$" then
        match r with
        | String d r' =>
            if Ascii.eqb d "$" then String "$" (getSubstitution matched before after r')
            else if Ascii.eqb d "&" then matched +:+ getSubstitution matched before after r'
            else if Ascii.eqb d "`" then before +:+ getSubstitution matched before after r'
            else if Ascii.eqb d "'" then after +:+ getSubstitution matched before after r'
            else String c (getSubstitution matched before after r)
        | EmptyString => String c EmptyString
        end
      else String c (getSubstitution matched before after r)
  end.

(** [s.replace(pat, repl)] for a string pattern: only the first occurrence of
    [pat] in [s] is replaced. *)
Definition replace (pat repl s : string) : string :=
  match indexOf pat s with
  | None => s
  | Some i =>
      let before := take i s in
      let after := drop (i + String.length pat) s in
      before +:+ getSubstitution pat before after repl +:+ after
  end.

Definition is_upper (c : ascii) : bool :=
  (nat_of_ascii "A" <=? nat_of_ascii c)%nat && (nat_of_ascii c <=? nat_of_ascii "Z")%nat.

Definition lower_char (c : ascii) : ascii :=
  if is_upper c then ascii_of_nat (nat_of_ascii c + 32) else c.

(** [s.toLowerCase()] on the ASCII letters. *)
Fixpoint toLowerCase (s : string) : string :=
  match s with
  | EmptyString => EmptyString
  | String c s' => String (lower_char c) (toLowerCase s')
  end.

(** [l.join(sep)] *)
Definition join (sep : string) (l : list string) : string := String.concat sep l.

Definition is_digit (c : ascii) : bool :=
  (nat_of_ascii "0" <=? nat_of_ascii c)%nat && (nat_of_ascii c <=? nat_of_ascii "9")%nat.

(** [n.toString()] of an integer. *)
Definition Z_toString (z : Z) : string := NilZero.string_of_int (Z.to_int z).

(** [Math.round(x)]: the nearest integer, halves rounded up. *)
Definition Math_round (x : Q) : Z := Qfloor (x + (1 # 2)).

(** JavaScript truthiness of a string: only the empty string is falsy. *)
Definition truthy (s : string) : bool :=
  match s with EmptyString => false | _ => true end.

(** The character [c] occurs in [s]. *)
Fixpoint has_char (c : ascii) (s : string) : bool :=
  match s with
  | EmptyString => false
  | String d s' => Ascii.eqb c d || has_char c s'
  end.

Definition is_empty (s : string) : bool :=
  match s with EmptyString => true | _ => false end.

(** [s.matchAll(/([0-9]+)/g)]: the maximal runs of digits, left to right. *)
Fixpoint digit_runs_from (run s : string) : list string :=
  match s with
  | EmptyString => if is_empty run then [] else [run]
  | String c s' =>
      if is_digit c then digit_runs_from (run +:+ String c EmptyString) s'
      else if is_empty run then digit_runs_from EmptyString s'
      else run :: digit_runs_from EmptyString s'
  end.

Definition matchAll_digits (s : string) : list string := digit_runs_from EmptyString s.

(** [parseInt(s)] of a string of digits (exact; JavaScript is exact below
    2^53). *)
Definition parseInt (s : string) : Z :=
  let fix go (acc : Z) (s : string) : Z :=
    match s with
    | EmptyString => acc
    | String c s' => go (10 * acc + (Z.of_nat (nat_of_ascii c) - 48))%Z s'
    end in
  go 0%Z s.

Definition is_lower (c : ascii) : bool :=
  (nat_of_ascii "a" <=? nat_of_ascii c)%nat && (nat_of_ascii c <=? nat_of_ascii "z")%nat.

(** Every character of [s] satisfies [f]. *)
Fixpoint every (f : ascii -> bool) (s : string) : bool :=
  match s with
  | EmptyString => true
  | String c s' => f c && every f s'
  end.

(** The number of occurrences of the character [c] in [s]. *)
Fixpoint count_char (c : ascii) (s : string) : nat :=
  match s with
  | EmptyString => 0
  | String d s' => (if Ascii.eqb c d then 1 else 0) + count_char c s'
  end.

End JS.

(** ** The document object model

    Elements are objects on a heap, named by [node]; an element refers to its
    parent by name, as [parentElement] does.  The document lists the elements
    connected to it in tree order.  An element's [class] attribute is kept as
    its token list ([classList]).  [className] is its serialisation on an
    HTML element; on an SVG element it is an [SVGAnimatedString] object. *)
Module Dom.

Definition node := nat.

(** The part of [window.getComputedStyle(e)] the traversal reads. *)
Record CSSStyleDeclaration := {
  display : string;
  flexDirection : string;
  backgroundColor : string
}.

Record element := {
  tagName : string;                  (* upper case, as the DOM reports it for HTML *)
  svgElement : bool;                 (* [e instanceof SVGElement] *)
  elementId : string;                (* [e.id], empty when there is none *)
  classList : list string;
  attributeNames : list string;      (* the names [e.hasAttribute] answers for *)
  parentElement : option node;       (* [None] is JavaScript's null *)
  offsetHeight : Z;                  (* an SVG element has none: its [undefined] is not 0,
                                        and is kept as a height other than 0 *)
  computedStyle : CSSStyleDeclaration;
  textContent : string
}.

Record document := {
  element_at : node -> element;       (* the heap of element objects *)
  treeOrder : list node;             (* the connected elements, in document order *)
  documentHead : node;
  documentBody : node;
  nextNode : node                    (* the name the next created element gets *)
}.

(** The value of [e.className]: a string, or the [SVGAnimatedString] of an
    SVG element, an object without the methods of a string. *)
Inductive class_name :=
| DOMString (s : string)
| SVGAnimatedString (baseVal : string).

(** The serialisation of the [class] attribute. *)
Definition class_attribute (e : element) : string := JS.join " " (classList e).

Definition className (e : element) : class_name :=
  if svgElement e then SVGAnimatedString (class_attribute e)
  else DOMString (class_attribute e).

Definition hasAttribute (e : element) (name : string) : bool :=
  existsb (String.eqb name) (attributeNames e).

Definition contains_token (token : string) (l : list string) : bool :=
  existsb (String.eqb token) l.

(** [e.classList.add(token)]: the token set is an ordered set, and its
    update writes the [class] attribute, creating it on an element that had
    none. *)
Definition classList_add (token : string) (e : element) : element :=
  {| tagName := tagName e;
     svgElement := svgElement e;
     elementId := elementId e;
     classList := if contains_token token (classList e) then classList e
                  else classList e ++ [token];
     attributeNames := if hasAttribute e "class" then attributeNames e
                       else attributeNames e ++ ["class"];
     parentElement := parentElement e;
     offsetHeight := offsetHeight e;
     computedStyle := computedStyle e;
     textContent := textContent e |}.

Definition set_parent (p : option node) (e : element) : element :=
  {| tagName := tagName e;
     svgElement := svgElement e;
     elementId := elementId e;
     classList := classList e;
     attributeNames := attributeNames e;
     parentElement := p;
     offsetHeight := offsetHeight e;
     computedStyle := computedStyle e;
     textContent := textContent e |}.

Definition update_element (n : node) (f : element -> element) (doc : document) : document :=
  {| element_at := fun m => if Nat.eqb m n then f (element_at doc n) else element_at doc m;
     treeOrder := treeOrder doc;
     documentHead := documentHead doc;
     documentBody := documentBody doc;
     nextNode := nextNode doc |}.

(** *** Selector lists

    The source queries with comma separated lists of type selectors
    ([p, font, pre]) and of class selectors ([.lindy-font-size, ...]). *)
Inductive simple_selector :=
| TypeSelector (tag : string)
| ClassSelector (cls : string).

Fixpoint split_commas (acc s : string) : list string :=
  match s with
  | EmptyString => [acc]
  | String c s' =>
      if Ascii.eqb c "," then acc :: split_commas EmptyString s'
      else if Ascii.eqb c " " then split_commas acc s'
      else split_commas (acc +:+ String c EmptyString) s'
  end.

Definition parse_simple (s : string) : simple_selector :=
  match s with
  | String c s' => if Ascii.eqb c "." then ClassSelector s' else TypeSelector s
  | EmptyString => TypeSelector s
  end.

Definition parse_selector_list (s : string) : list simple_selector :=
  map parse_simple (split_commas EmptyString s).

Definition matches_simple (e : element) (sel : simple_selector) : bool :=
  match sel with
  | TypeSelector tag => String.eqb (JS.toLowerCase (tagName e)) (JS.toLowerCase tag)
  | ClassSelector cls => contains_token cls (classList e)
  end.

(** [e.matches(selectors)] *)
Definition matches (selectors : string) (e : element) : bool :=
  existsb (matches_simple e) (parse_selector_list selectors).

(** [ancestor doc k n]: [n.parentElement. ... .parentElement], [k] times. *)
Fixpoint ancestor (doc : document) (k : nat) (n : node) : option node :=
  match k with
  | O => Some n
  | S k' => match parentElement (element_at doc n) with
            | None => None
            | Some p => ancestor doc k' p
            end
  end.

(** [n] lies strictly below [root], at most [fuel] parent links away. *)
Fixpoint descendant_of (fuel : nat) (doc : document) (root n : node) : bool :=
  match fuel with
  | O => false
  | S f => match parentElement (element_at doc n) with
           | None => false
           | Some p => Nat.eqb p root || descendant_of f doc root p
           end
  end.

(** [document.querySelectorAll(selectors)] *)
Definition document_querySelectorAll (doc : document) (selectors : string) : list node :=
  List.filter (fun n => matches selectors (element_at doc n)) (treeOrder doc).

(** [root.querySelectorAll(selectors)]: the matching descendants of [root]. *)
Definition querySelectorAll (doc : document) (root : node) (selectors : string) : list node :=
  List.filter (fun n => matches selectors (element_at doc n)
                        && descendant_of (length (treeOrder doc)) doc root n)
              (treeOrder doc).

(** [n.remove()]: [n] and everything below it leave the document. *)
Definition remove (n : node) (doc : document) : document :=
  {| element_at := fun m => if Nat.eqb m n then set_parent None (element_at doc n)
                            else element_at doc m;
     treeOrder := List.filter (fun m => negb (Nat.eqb m n
                                  || descendant_of (length (treeOrder doc)) doc n m))
                         (treeOrder doc);
     documentHead := documentHead doc;
     documentBody := documentBody doc;
     nextNode := nextNode doc |}.

(** [l.forEach((e) => e.remove())] *)
Definition remove_each (l : list node) (doc : document) : document :=
  fold_left (fun d e => remove e d) l doc.

End Dom.

(** ** Results of code that may throw

    [TypeError] is the exception of a property read on null; [OutOfFuel]
    belongs to the model only: a loop cut off before it finished. *)
Inductive result (A : Type) : Type :=
| Ok (a : A)
| TypeError
| OutOfFuel.
Arguments Ok {A} a.
Arguments TypeError {A}.
Arguments OutOfFuel {A}.

Definition bind {A B : Type} (r : result A) (k : A -> result B) : result B :=
  match r with
  | Ok a => k a
  | TypeError => TypeError
  | OutOfFuel => OutOfFuel
  end.

Notation "'do' x <- r ; k" := (bind r (fun x => k))
  (at level 10, x name, r at level 100, k at level 200).

(** ** iterateDOM.js *)
Module IterateDOM.
Import Dom.

Definition globalParagraphSelector : string := "p, font, pre".

Definition asideWordBlocklist : list string :=
  ["header"; "footer"; "aside"; "sidebar"; "comment"; "language"].

(** [c.toLowerCase()] for the value [c] of [node.className]: the
    [SVGAnimatedString] has no such method, and the call throws. *)
Definition className_toLowerCase (c : class_name) : result string :=
  match c with
  | DOMString s => Ok (JS.toLowerCase s)
  | SVGAnimatedString _ => TypeError
  end.

(** [l.some(f)] for a callback that may throw. *)
Fixpoint some (f : string -> result bool) (l : list string) : result bool :=
  match l with
  | [] => Ok false
  | x :: rest => do found <- f x ; if found then Ok true else some f rest
  end.

(** The operands of [||] are evaluated from the left, up to the first that
    is true. *)
Definition _isAsideEquivalent (e : element) : result bool :=
  if String.eqb (tagName e) "HEADER" ||
     String.eqb (tagName e) "FOOTER" ||
     String.eqb (tagName e) "ASIDE" ||
     String.eqb (tagName e) "CODE"
  then Ok true
  else
    do found <- some (fun word =>
                        do lower <- className_toLowerCase (className e) ;
                        Ok (JS.includes word lower ||
                            JS.includes word (JS.toLowerCase (elementId e))))
                     asideWordBlocklist ;
    Ok (found || hasAttribute e "data-language").

Definition _getNodeOverrideStyles (currentSelector : string)
    (activeStyle : CSSStyleDeclaration) : list string :=
  let overrideCssDeclarations : list string := [] in
  let overrideCssDeclarations :=
    if String.eqb (display activeStyle) "flex"
       && String.eqb (flexDirection activeStyle) "row"
    then overrideCssDeclarations ++ [currentSelector +:+ " { display: block; }"]
    else overrideCssDeclarations in
  let overrideCssDeclarations :=
    if String.eqb (display activeStyle) "grid"
    then overrideCssDeclarations ++ [currentSelector +:+ " {
            display: block;
            grid-template-columns: 1fr;
            grid-template-areas: none;
            column-gap: 0;
        }"]
    else overrideCssDeclarations in
  overrideCssDeclarations.

Definition _getTextElementChainOverrideStyle (containerSelectors : list string) : string :=
  let matchedTextSelector := JS.join ", " containerSelectors in
  matchedTextSelector +:+ " {
        width: 100% !important;
        min-width: 0 !important;
        max-width: calc(var(--lindy-pagewidth) - 2 * 40px) !important;
        margin-left: auto !important;
        margin-right: auto !important;
        padding-left: 0 !important;
        padding-right: 0 !important;
        background: none !important;
        border: none !important;
        box-shadow: none !important;
        transition: all 0.2s;
    }".

(** What a selector pushed on [containerSelectors] was built for: the
    paragraph children of a leaf's parent ([selector > p]) or a text
    container itself. *)
Inductive selector_kind := ChildParagraphs | TextContainer.

(** An entry of the [containerSelectors] array.  The array holds the texts;
    the element an entry was generated for, and where in [iterateParents] it
    was pushed, are recorded next to the text so that properties can speak
    about them. *)
Record container_selector := {
  selector_node : node;
  selector_kind_of : selector_kind;
  selector_text : string
}.

(** An entry of [overrideCssDeclarations], with the element it is about. *)
Record override_declaration := {
  override_node : node;
  override_text : string
}.

(** The variables of one [iterateDOM] call that [iterateParents] closes over,
    the live document, and the number of [Math.random()] calls made. *)
Record traversal := {
  dom : document;
  randomCalls : nat;
  containerSelectors : list container_selector;
  overrideCssDeclarations : list override_declaration;
  backgroundColors : list string;
  seenNodes : gset node
}.

Definition initial (doc : document) (calls : nat) : traversal :=
  {| dom := doc; randomCalls := calls; containerSelectors := [];
     overrideCssDeclarations := []; backgroundColors := []; seenNodes := ∅ |}.

Section Traversal.

(** [random k] is what the [k]-th evaluation of
    [Math.random().toString().slice(2)] yields. *)
Variable random : nat -> string.

(** [_getNodeSelector(node)]: returns the selector; the new class is added to
    the element in the live document. *)
Definition _getNodeSelector (t : traversal) (n : node) : string * traversal :=
  let containerId := "container_" +:+ random (randomCalls t) in
  let doc := update_element n (classList_add containerId) (dom t) in
  let classNames := map (fun className => "." +:+ className) [containerId] in
  let e := element_at doc n in
  let completeSelector :=
    JS.toLowerCase (tagName e) +:+ JS.join EmptyString classNames +:+
    (if JS.truthy (elementId e) then "[id='" +:+ elementId e +:+ "']" else EmptyString) in
  (completeSelector,
   {| dom := doc; randomCalls := S (randomCalls t);
      containerSelectors := containerSelectors t;
      overrideCssDeclarations := overrideCssDeclarations t;
      backgroundColors := backgroundColors t;
      seenNodes := seenNodes t |}).

Definition push_selector (c : container_selector) (t : traversal) : traversal :=
  {| dom := dom t; randomCalls := randomCalls t;
     containerSelectors := containerSelectors t ++ [c];
     overrideCssDeclarations := overrideCssDeclarations t;
     backgroundColors := backgroundColors t;
     seenNodes := seenNodes t |}.

Definition concat_overrides (l : list override_declaration) (t : traversal) : traversal :=
  {| dom := dom t; randomCalls := randomCalls t;
     containerSelectors := containerSelectors t;
     overrideCssDeclarations := overrideCssDeclarations t ++ l;
     backgroundColors := backgroundColors t;
     seenNodes := seenNodes t |}.

Definition push_backgroundColor (c : string) (t : traversal) : traversal :=
  {| dom := dom t; randomCalls := randomCalls t;
     containerSelectors := containerSelectors t;
     overrideCssDeclarations := overrideCssDeclarations t;
     backgroundColors := backgroundColors t ++ [c];
     seenNodes := seenNodes t |}.

Definition add_seen (n : node) (t : traversal) : traversal :=
  {| dom := dom t; randomCalls := randomCalls t;
     containerSelectors := containerSelectors t;
     overrideCssDeclarations := overrideCssDeclarations t;
     backgroundColors := backgroundColors t;
     seenNodes := {[ n ]} ∪ seenNodes t |}.

(** The [while (currentElem !== document.body)] loop of [iterateParents].
    On null the loop body runs into [_isAsideEquivalent(null)], which throws;
    so does [_isAsideEquivalent] on an SVG element. *)
Fixpoint iterateParents_loop (fuel : nat) (t : traversal) (currentElem : option node)
  : result traversal :=
  match fuel with
  | O => OutOfFuel
  | S fuel' =>
      match currentElem with
      | None => TypeError
      | Some cur =>
          if Nat.eqb cur (documentBody (dom t)) then Ok t
          else if bool_decide (cur ∈ seenNodes t) then Ok t
          else
            let t := add_seen cur t in
            do aside <- _isAsideEquivalent (element_at (dom t) cur) ;
            if aside then Ok t
            else
              let '(currentSelector, t) := _getNodeSelector t cur in
              let t := push_selector
                         {| selector_node := cur; selector_kind_of := TextContainer;
                            selector_text := currentSelector |} t in
              let activeStyle := computedStyle (element_at (dom t) cur) in
              let t := concat_overrides
                         (map (fun d => {| override_node := cur; override_text := d |})
                              (_getNodeOverrideStyles currentSelector activeStyle)) t in
              let t := if negb (JS.includes "rgba(0, 0, 0, 0)" (backgroundColor activeStyle))
                       then push_backgroundColor (backgroundColor activeStyle) t
                       else t in
              iterateParents_loop fuel' t (parentElement (element_at (dom t) cur))
      end
  end.

(** [iterateParents(elem)]; [_getNodeSelector(null)] throws. *)
Definition iterateParents (fuel : nat) (t : traversal) (elem : option node)
  : result traversal :=
  match elem with
  | None => TypeError
  | Some e =>
      let t := if negb (bool_decide (e ∈ seenNodes t)) then
                 let '(currentSelector, t) := _getNodeSelector t e in
                 push_selector
                   {| selector_node := e; selector_kind_of := ChildParagraphs;
                      selector_text := currentSelector +:+ " > p" |} t
               else t in
      iterateParents_loop fuel t (Some e)
  end.

(** A [NodeList] is an object, and every object is truthy, an empty list
    too. *)
Definition NodeList_truthy (l : list node) : bool := true.

(** The body of [paragraphs.forEach]. *)
Definition visit_paragraph (fuel : nat) (elem : node) (t : traversal) : result traversal :=
  if Z.eqb (offsetHeight (element_at (dom t) elem)) 0 then Ok t
  else iterateParents fuel t (parentElement (element_at (dom t) elem)).

Fixpoint forEach (fuel : nat) (paragraphs : list node) (t : traversal) : result traversal :=
  match paragraphs with
  | [] => Ok t
  | elem :: rest => do t' <- visit_paragraph fuel elem t ; forEach fuel rest t'
  end.

(** The leaves [iterateDOM] walks from. *)
Definition paragraphs_of (doc : document) : list node :=
  let paragraphs := querySelectorAll doc (documentBody doc) globalParagraphSelector in
  if negb (NodeList_truthy paragraphs)
  then querySelectorAll doc (documentBody doc) "div, span"
  else paragraphs.

(** [iterateDOM()], up to the two closures it returns: the state they close
    over.  [calls] counts the [Math.random()] calls made before. *)
Definition iterateDOM (fuel : nat) (doc : document) (calls : nat) : result traversal :=
  forEach fuel (paragraphs_of doc) (initial doc calls).

End Traversal.

(** The character classes of the pattern in [_getSiblingSelector]:
    [[_a-zA-Z]] and [[_a-zA-Z0-9-]]. *)
Definition is_name_start (c : ascii) : bool :=
  Ascii.eqb c "_" || JS.is_lower c || JS.is_upper c.

Definition is_name_char (c : ascii) : bool :=
  is_name_start c || JS.is_digit c || Ascii.eqb c "-".

(** The test of the pattern [^-?[_a-zA-Z]+[_a-zA-Z0-9-]*$] on a class name:
    after an optional dash, a first character of the first class and then
    only characters of the second one. *)
Definition valid_classname (classname : string) : bool :=
  let rest := match classname with
              | String c s' => if Ascii.eqb c "-" then s' else classname
              | EmptyString => classname
              end in
  match rest with
  | String c s' => is_name_start c && JS.every is_name_char s'
  | EmptyString => false
  end.

Definition _getSiblingSelector (e : element) : string :=
  JS.join EmptyString
    (map (fun className => "." +:+ className)
         (List.filter valid_classname (classList e))).

End IterateDOM.

(** ** The theme variables and the injected style sheets *)
Module Theme.

(** Modelled from the spec: [getThemeValue] of ./theme, which is not part of
    the sources.  The theme variables are "a process-wide (per tab) key-value
    store of CSS custom properties ... with explicit set/get"; a custom
    property that is not set reads as the empty string. *)
Definition getThemeValue (store : gmap string string) (varName : string) : string :=
  default EmptyString (store !! varName).

(** Modelled from the spec: [setCssThemeVariable] of ./theme, the store's
    [set(name, value, persist?)]. *)
Definition setCssThemeVariable (varName value : string) (persist : bool)
    (store : gmap string string) : gmap string string :=
  <[ varName := value ]> store.

End Theme.

Module Common.
Import Dom.

(** Modelled from the spec: the style element [createStylesheetText] of
    ./common creates, "a named, injected style element holding generated CSS
    text", tagged with its name so that restoration finds it. *)
Definition style_element (parent : node) (name text : string) : element :=
  {| tagName := "STYLE";
     svgElement := false;
     elementId := name;
     classList := [name];
     attributeNames := ["class"; "id"];
     parentElement := Some parent;
     offsetHeight := 0;
     computedStyle := {| display := "none"; flexDirection := "row";
                         backgroundColor := "rgba(0, 0, 0, 0)" |};
     textContent := text |}.

(** Modelled from the spec: [createStylesheetText] of ./common, which is not
    part of the sources.  "inject(name, cssText) creates or replaces a
    uniquely-named style resource in the document head/body", a "named,
    removable style element"; "re-injection must replace, not duplicate".
    The element carries the name as its class and id. *)
Definition createStylesheetText (text styleId : string) (doc : document) : document :=
  let doc := remove_each (document_querySelectorAll doc ("." +:+ styleId)) doc in
  let n := nextNode doc in
  {| element_at := fun m => if Nat.eqb m n
                            then style_element (documentHead doc) styleId text
                            else element_at doc m;
     treeOrder := treeOrder doc ++ [n];
     documentHead := documentHead doc;
     documentBody := documentBody doc;
     nextNode := S n |}.

End Common.

Module StyleChanges.
Import Dom IterateDOM.

(** [pageViewTransition()], the second closure [iterateDOM] returns, run on
    the document as it is when the closure is called. *)
Definition pageViewTransition (t : traversal) (doc : document) : document :=
  let doc := Common.createStylesheetText
               (_getTextElementChainOverrideStyle (map selector_text (containerSelectors t)))
               "lindy-text-chain-override" doc in
  Common.createStylesheetText
    (JS.join "
" (map override_text (overrideCssDeclarations t)))
    "lindy-node-overrides" doc.

(** [unPatchDomTransform()] *)
Definition unPatchDomTransform (doc : document) : document :=
  remove_each
    (document_querySelectorAll doc
       ".lindy-font-size, .lindy-text-chain-override, .lindy-node-overrides")
    doc.

Section BackgroundColors.

(** [tinycolor(c).getBrightness()] of the tinycolor2 package. *)
Variable getBrightness : string -> Q.

(** The names of the custom properties, constants of ./theme. *)
Variables originalBackgroundThemeVariable backgroundColorThemeVariable
          activeColorThemeVariable : string.

Definition _processBackgroundColors (textBackgroundColors : list string)
    (store : gmap string string) : gmap string string :=
  let bodyColor := Theme.getThemeValue store originalBackgroundThemeVariable in
  let pickedColor :=
    match textBackgroundColors with
    | first :: _ => first
    | [] => bodyColor
    end in
  let brightness := getBrightness pickedColor in
  let pickedColor := if negb (Qle_bool brightness 230) then "white" else pickedColor in
  let store := Theme.setCssThemeVariable originalBackgroundThemeVariable pickedColor true store in
  let themeName := Theme.getThemeValue store activeColorThemeVariable in
  if negb (JS.truthy themeName) || String.eqb themeName "auto"
  then Theme.setCssThemeVariable backgroundColorThemeVariable pickedColor true store
  else store.

(** [fadeOut()], the first closure [iterateDOM] returns. *)
Definition fadeOut (t : traversal) (store : gmap string string) : gmap string string :=
  _processBackgroundColors (backgroundColors t) store.

End BackgroundColors.

End StyleChanges.

(** ** The postcss plugins of [getCssOverride] *)
Module CssOverride.

(** A postcss at-rule node: [@name params], with the expando property the
    plugins set on it. *)
Record at_rule := {
  name : string;
  params : string;
  atrule_alreadyProcessed : bool
}.

(** A postcss declaration node: [prop: value]. *)
Record declaration := {
  prop : string;
  value : string;
  important : bool;
  alreadyProcessed : bool
}.

(** *** scaleBreakpointsPlugin *)

(** The body of the [for (const match of rule.params.matchAll(...))] loop.
    The numbers of the source are doubles; they are modelled by the rationals
    they stand for, which is exact as long as the counts and the product are
    doubles themselves (integers below 2^53, over a power of two for the
    product). *)
Definition scale_match (conditionScale : Q) (condition digits : string) : string :=
  let oldCount := JS.parseInt digits in
  let newCount := JS.Math_round (conditionScale * inject_Z oldCount) in
  JS.replace (JS.Z_toString oldCount) (JS.Z_toString newCount) condition.

Definition scaleBreakpoints_AtRule (conditionScale : Q) (rule : at_rule) : at_rule :=
  if String.eqb (name rule) "media" then
    if atrule_alreadyProcessed rule then rule
    else
      let condition :=
        fold_left (scale_match conditionScale) (JS.matchAll_digits (params rule))
                  (params rule) in
      {| name := name rule; params := condition; atrule_alreadyProcessed := true |}
  else rule.

(** *** urlRewritePlugin *)

Definition double_quote : ascii := ascii_of_nat 34.

(** An optional character of the pattern ([c?], greedy). *)
Definition strip_optional (c : ascii) (s : string) : string :=
  match s with
  | String d s' => if Ascii.eqb c d then s' else s
  | EmptyString => s
  end.

(** The text up to the first closing parenthesis, and the text after it. *)
Fixpoint until_paren (s : string) : option (string * string) :=
  match s with
  | EmptyString => None
  | String c s' =>
      if Ascii.eqb c ")" then Some (EmptyString, s')
      else match until_paren s' with
           | Some (body, rest) => Some (String c body, rest)
           | None => None
           end
  end.

(** The lazy capture [([^\)]*?)] followed by the optional closing quotes and
    the parenthesis: of the text before the first closing parenthesis, the
    capture is the shortest prefix whose remainder is only the closing
    quotes (a double quote, an apostrophe, both in that order, or nothing). *)
Definition is_closing_quotes (s : string) : bool :=
  JS.is_empty (strip_optional "'" (strip_optional double_quote s)).

Fixpoint lazy_capture (body : string) : string :=
  if is_closing_quotes body then EmptyString
  else match body with
       | EmptyString => EmptyString
       | String c body' => String c (lazy_capture body')
       end.

(** The negative lookahead of the declaration pattern: the reference, after
    its optional opening quotes, starts with [data:], [#], [http://] or
    [https://]. *)
Definition lookahead_excluded (s : string) : bool :=
  let s := strip_optional "'" (strip_optional double_quote s) in
  JS.startsWith "data:" s || JS.startsWith "#" s ||
  JS.startsWith "http://" s || JS.startsWith "https://" s.

(** One attempt of the declaration pattern at the start of [s]: the capture
    and the length of the match. *)
Definition match_url_at (s : string) : option (string * nat) :=
  if JS.startsWith "url(" s then
    let r := JS.drop 4 s in
    if lookahead_excluded r then None
    else
      let r' := strip_optional "'" (strip_optional double_quote r) in
      match until_paren r' with
      | Some (body, rest) => Some (lazy_capture body, String.length s - String.length rest)
      | None => None
      end
  else None.

(** [s.matchAll(pattern)] for the declaration pattern: the captures of the
    matches, left to right; the search resumes behind a match ([skip] counts
    the characters of the last match still to pass). *)
Fixpoint url_captures_from (skip : nat) (s : string) : list string :=
  match s with
  | EmptyString => []
  | String _ s' =>
      match skip with
      | S k => url_captures_from k s'
      | O => match match_url_at s with
             | Some (capture, len) => capture :: url_captures_from (len - 1) s'
             | None => url_captures_from 0 s'
             end
      end
  end.

Definition matchAll_url (s : string) : list string := url_captures_from 0 s.

(** [s.match(pattern)] with the global flag, for the pattern of the [@import]
    branch: an array of the whole matches (no captures).  A match starts
    anywhere and ends at the next closing parenthesis. *)
Fixpoint import_matches_from (run s : string) : list string :=
  match s with
  | EmptyString => []
  | String c s' =>
      if Ascii.eqb c ")" then (run +:+ ")") :: import_matches_from EmptyString s'
      else import_matches_from (run +:+ String c EmptyString) s'
  end.

Definition match_import (s : string) : list string := import_matches_from EmptyString s.

Section UrlRewrite.

(** [new URL(url, baseUrl).href]; [None] when the constructor throws. *)
Variable URL_href : string -> string -> option string.

Definition new_URL (url baseUrl : string) : result string :=
  match URL_href url baseUrl with
  | Some href => Ok href
  | None => TypeError
  end.

(** The [AtRule] handler.  [?.[1]] is the second whole match, or undefined,
    which both [new URL] and [replace] turn into the string [undefined]. *)
Definition urlRewrite_AtRule (baseUrl : string) (rule : at_rule) : result at_rule :=
  if String.eqb (name rule) "import" then
    let url := nth 1 (match_import (params rule)) "undefined" in
    do absoluteUrl <- new_URL url baseUrl ;
    Ok {| name := name rule;
          params := JS.replace url absoluteUrl (params rule);
          atrule_alreadyProcessed := atrule_alreadyProcessed rule |}
  else Ok rule.

(** The body of the [for (const match of decl.value.matchAll(...))] loop. *)
Definition rewrite_match (baseUrl : string) (newValue : result string) (url : string)
  : result string :=
  do newValue <- newValue ;
  do absoluteUrl <- new_URL url baseUrl ;
  Ok (JS.replace url absoluteUrl newValue).

(** The [Declaration] handler. *)
Definition urlRewrite_Declaration (baseUrl : string) (decl : declaration)
  : result declaration :=
  if JS.startsWith "url(" (value decl) then
    if alreadyProcessed decl then Ok decl
    else if JS.startsWith "url(data:" (value decl) then Ok decl
    else
      do newValue <- fold_left (rewrite_match baseUrl) (matchAll_url (value decl))
                               (Ok (value decl)) ;
      Ok {| prop := prop decl; value := newValue; important := important decl;
            alreadyProcessed := true |}
  else Ok decl.

End UrlRewrite.

(** *** hideFixedElementsPlugin and styleTweaksPlugin *)

(** A child of a rule: a declaration, or a node of another type (a comment,
    a nested at-rule), of which only the type matters here. *)
Inductive child :=
| DeclNode (decl : declaration)
| OtherNode (type : string).

(** A postcss rule node: [selector { nodes }]. *)
Record rule := {
  selector : string;
  nodes : list child
}.

(** The callback of [rule.each] in both plugins. *)
Definition margin_to_padding (node : child) : child :=
  match node with
  | DeclNode decl =>
      if JS.startsWith "margin" (prop decl)
      then DeclNode {| prop := JS.replace "margin" "padding" (prop decl);
                       value := value decl; important := important decl;
                       alreadyProcessed := alreadyProcessed decl |}
      else node
  | OtherNode _ => node
  end.

(** The [Rule] handler of [hideFixedElementsPlugin]. *)
Definition hideFixedElements_Rule (r : rule) : rule :=
  if String.eqb (selector r) "body"
  then {| selector := selector r; nodes := map margin_to_padding (nodes r) |}
  else r.

(** The [Rule] handler of [styleTweaksPlugin]. *)
Definition styleTweaks_Rule (r : rule) : rule :=
  if String.eqb (selector r) "body"
  then {| selector := selector r; nodes := map margin_to_padding (nodes r) |}
  else r.

(** The [Declaration] handler of [hideFixedElementsPlugin], as a function
    of the declaration and its parent: the parent afterwards. *)
Definition hideFixedElements_Declaration (decl : declaration) (parent : rule) : rule :=
  if String.eqb (prop decl) "position"
     && (String.eqb (value decl) "fixed" || String.eqb (value decl) "sticky")
  then {| selector := selector parent;
          nodes := nodes parent
                   ++ [DeclNode {| prop := "display"; value := "none"; important := true;
                                   alreadyProcessed := false |}] |}
  else parent.

End CssOverride.

(** ** Example documents *)
Module Examples.
Import Dom.

Definition transparent : CSSStyleDeclaration :=
  {| display := "block"; flexDirection := "row"; backgroundColor := "rgba(0, 0, 0, 0)" |}.

(** A visible element without id, classes or attributes. *)
Definition plain (tag : string) (parent : option node) : element :=
  {| tagName := tag; svgElement := false; elementId := EmptyString; classList := [];
     attributeNames := [];
     parentElement := parent; offsetHeight := 20; computedStyle := transparent;
     textContent := EmptyString |}.

Fixpoint lookup_element (l : list (node * element)) (n : node) : element :=
  match l with
  | [] => plain "DIV" None
  | (m, e) :: rest => if Nat.eqb m n then e else lookup_element rest n
  end.

(** The document whose elements are listed in tree order; by convention
    0 is the html element, 1 the head and 2 the body. *)
Definition document_of (l : list (node * element)) : document :=
  {| element_at := lookup_element l; treeOrder := map fst l;
     documentHead := 1; documentBody := 2; nextNode := length l |}.

Definition page (content : list (node * element)) : document :=
  document_of ((0, plain "HTML" None) :: (1, plain "HEAD" (Some 0))
               :: (2, plain "BODY" (Some 0)) :: content).

(** A page whose only content is a visible [div] holding a [span]: there are
    no p, font or pre elements. *)
Definition div_only_page : document :=
  page [(3, plain "DIV" (Some 2)); (4, plain "SPAN" (Some 3))].

(** A page with one container holding two paragraphs. *)
Definition two_paragraphs_page : document :=
  page [(3, plain "DIV" (Some 2)); (4, plain "P" (Some 3)); (5, plain "P" (Some 3))].


(** A page with three paragraphs directly in the body, the second of
    height zero, and a coloured grid section holding a fourth paragraph. *)
Definition body_children_page : document :=
  page [(3, plain "P" (Some 2));
        (4, {| tagName := "P"; svgElement := false; elementId := EmptyString;
               classList := ["lead"];
               attributeNames := ["class"]; parentElement := Some 2; offsetHeight := 0;
               computedStyle := transparent; textContent := EmptyString |});
        (5, plain "P" (Some 2));
        (6, {| tagName := "SECTION"; svgElement := false; elementId := "main";
               classList := ["story"];
               attributeNames := ["class"; "id"]; parentElement := Some 2;
               offsetHeight := 200;
               computedStyle := {| display := "grid"; flexDirection := "row";
                                   backgroundColor := "rgb(30, 30, 30)" |};
               textContent := EmptyString |});
        (7, plain "P" (Some 6))].

(** A page with two sections in one container, a paragraph in each: the
    chains of the two paragraphs share the container, element 3. *)
Definition shared_container_page : document :=
  page [(3, plain "DIV" (Some 2));
        (4, plain "SECTION" (Some 3)); (5, plain "P" (Some 4));
        (6, plain "SECTION" (Some 3)); (7, plain "P" (Some 6))].

(** An element of an inline SVG image; its tag name keeps its case. *)
Definition svg (tag : string) (parent : option node) : element :=
  {| tagName := tag; svgElement := true; elementId := EmptyString; classList := [];
     attributeNames := []; parentElement := parent; offsetHeight := 20;
     computedStyle := transparent; textContent := EmptyString |}.

(** A page with a paragraph inside the foreignObject of an SVG image. *)
Definition svg_page : document :=
  page [(3, svg "svg" (Some 2)); (4, svg "foreignObject" (Some 3));
        (5, plain "P" (Some 4))].

(** The outcomes of [Math.random().toString().slice(2)] used in examples. *)
Definition counter (k : nat) : string := JS.Z_toString (Z.of_nat (123 + k)).

(** The state a traversal of [doc] ends in (the initial one, should it
    throw). *)
Definition traversal_of (doc : document) : IterateDOM.traversal :=
  match IterateDOM.iterateDOM counter 10 doc 0 with
  | Ok t => t
  | _ => IterateDOM.initial doc 0
  end.

(** The state a single walk from [e] on the untouched [doc] ends in. *)
Definition walk_of (doc : document) (e : Dom.node) : IterateDOM.traversal :=
  match IterateDOM.iterateParents counter 5 (IterateDOM.initial doc 0) (Some e) with
  | Ok t => t
  | _ => IterateDOM.initial doc 0
  end.

(** Resolution of a path-relative reference against an http(s) base, the
    way the URL standard does it: the last segment of the base path is
    dropped, [..] leaves a directory, [.] stays.  It stands in for
    [new URL(url, base).href] in examples; other references and bases are
    rejected. *)
Fixpoint split_slashes (acc s : string) : list string :=
  match s with
  | EmptyString => [acc]
  | String c s' =>
      if Ascii.eqb c "/" then acc :: split_slashes EmptyString s'
      else split_slashes (acc +:+ String c EmptyString) s'
  end.

Definition resolve_segment (dir : list string) (segment : string) : list string :=
  if String.eqb segment ".." then removelast dir
  else if String.eqb segment "." then dir
  else dir ++ [segment].

Definition resolve_against (scheme rest url : string) : option string :=
  match split_slashes EmptyString rest with
  | host :: path =>
      let segments := fold_left resolve_segment (split_slashes EmptyString url)
                                (removelast path) in
      Some (scheme +:+ host +:+ "/" +:+ JS.join "/" segments)
  | [] => None
  end.

Definition resolve (url base : string) : option string :=
  if JS.has_char ":" url || JS.startsWith "/" url || JS.startsWith "#" url
     || JS.startsWith "?" url || JS.is_empty url then None
  else if JS.startsWith "https://" base then resolve_against "https://" (JS.drop 8 base) url
  else if JS.startsWith "http://" base then resolve_against "http://" (JS.drop 7 base) url
  else None.

(** The brightness tinycolor2 computes, (299 r + 587 g + 114 b) / 1000, for
    colours written [rgb(r, g, b)]; it stands in for
    [tinycolor(c).getBrightness()] in examples. *)
Definition rgb_brightness (color : string) : Q :=
  match map JS.parseInt (JS.matchAll_digits color) with
  | [r; g; b] => Qmake (r * 299 + g * 587 + b * 114) 1000
  | _ => 0
  end.

End Examples.

(** ** Vocabulary of the properties *)
Module Props.
Import CssOverride.

(** A reference that the declaration pattern captures whole and that
    [replace] finds first behind [url(]: it is not empty, its first
    character is none of those of [url(], it holds no parenthesis that
    closes and no quote, and it does not start with [data:], [#],
    [http://] or [https://]. *)
Definition relative_reference (u : string) : bool :=
  match u with
  | EmptyString => false
  | String c _ => negb (JS.has_char c "url(")
  end
  && negb (JS.has_char ")" u)
  && negb (JS.has_char double_quote u)
  && negb (JS.has_char "'" u)
  && negb (lookahead_excluded u).

(** *** The traversal, step by step *)
Section Steps.
Import Dom IterateDOM.

Variable random : nat -> string.

(** The first statement of [iterateParents] on an element not seen yet. *)
Definition push_child_selector (t : traversal) (e : node) : traversal :=
  let '(currentSelector, t) := _getNodeSelector random t e in
  push_selector
    {| selector_node := e; selector_kind_of := ChildParagraphs;
       selector_text := currentSelector +:+ " > p" |} t.

(** The rest of the loop body for an element that is marked seen and is not
    aside-equivalent. *)
Definition process_container (t : traversal) (cur : node) : traversal :=
  let '(currentSelector, t) := _getNodeSelector random t cur in
  let t := push_selector
             {| selector_node := cur; selector_kind_of := TextContainer;
                selector_text := currentSelector |} t in
  let activeStyle := computedStyle (element_at (dom t) cur) in
  let t := concat_overrides
             (map (fun d => {| override_node := cur; override_text := d |})
                  (_getNodeOverrideStyles currentSelector activeStyle)) t in
  if negb (JS.includes "rgba(0, 0, 0, 0)" (backgroundColor activeStyle))
  then push_backgroundColor (backgroundColor activeStyle) t
  else t.

End Steps.

Section Counting.
Import Dom IterateDOM.

Definition kind_eqb (a b : selector_kind) : bool :=
  match a, b with
  | ChildParagraphs, ChildParagraphs | TextContainer, TextContainer => true
  | _, _ => false
  end.

(** The number of selectors of kind [k] generated for the element [n]. *)
Definition count_selectors (k : selector_kind) (n : node) (l : list container_selector) : nat :=
  length (List.filter (fun c => Nat.eqb (selector_node c) n
                                && kind_eqb (selector_kind_of c) k) l).


(** The number of override rules emitted for the element [n]. *)
Definition count_overrides (n : node) (l : list override_declaration) : nat :=
  length (List.filter (fun d => Nat.eqb (override_node d) n) l).

(** The element carries a class of the generated naming pattern. *)
Definition has_container_class (e : element) : bool :=
  existsb (JS.startsWith "container_") (classList e).

(** The traversal has left the body, the parent links and the heights of
    [doc] as they were. *)
Definition same_tree (doc : document) (t : traversal) : Prop :=
  documentBody (dom t) = documentBody doc
  /\ forall n, parentElement (element_at (dom t) n) = parentElement (element_at doc n)
            /\ offsetHeight (element_at (dom t) n) = offsetHeight (element_at doc n).

(** The part of the classifier that reads the tag name, and the part that
    reads class, id and attributes once [className] gave a string. *)
Definition aside_tag (e : element) : bool :=
  String.eqb (tagName e) "HEADER" ||
  String.eqb (tagName e) "FOOTER" ||
  String.eqb (tagName e) "ASIDE" ||
  String.eqb (tagName e) "CODE".

Definition aside_words (e : element) : bool :=
  existsb (fun word =>
             JS.includes word (JS.toLowerCase (class_attribute e)) ||
             JS.includes word (JS.toLowerCase (elementId e)))
          asideWordBlocklist ||
  hasAttribute e "data-language".

(** The classifier returns false for [e]: a main text element. *)
Definition main_text (e : element) : bool :=
  match _isAsideEquivalent e with
  | Ok false => true
  | _ => false
  end.

(** The walk that starts at [e] comes to [a] after [k] steps upwards: none
    of the elements from [e] to [a] is the body, and each of them is a main
    text element. *)
Fixpoint walk_reaches (doc : document) (k : nat) (e a : node) : bool :=
  negb (Nat.eqb e (documentBody doc)) && main_text (element_at doc e) &&
  match k with
  | O => Nat.eqb e a
  | S k' => match parentElement (element_at doc e) with
            | Some p => walk_reaches doc k' p a
            | None => false
            end
  end.



(** The document has no SVG elements: [className] is a string everywhere. *)
Definition html_only (doc : document) : Prop :=
  forall n, svgElement (element_at doc n) = false.

(** The bookkeeping of the text-container selectors during a traversal of
    [doc]: an element gets at most one, only once it is marked seen; it gets
    no more override rules than selectors; a seen element has its selector
    unless it is aside-equivalent; and an element for which the classifier
    does not return false in [doc] keeps its outcome and gets none. *)
Definition selectors_invariant (doc : document) (t : traversal) : Prop :=
  (forall n, count_selectors TextContainer n (containerSelectors t) <= 1)
  /\ (forall n, n ∉ seenNodes t ->
                count_selectors TextContainer n (containerSelectors t) = 0)
  /\ (forall n, count_overrides n (overrideCssDeclarations t)
                <= count_selectors TextContainer n (containerSelectors t))
  /\ (forall n, n ∈ seenNodes t ->
                count_selectors TextContainer n (containerSelectors t) = 1
                \/ _isAsideEquivalent (element_at (dom t) n) = Ok true)
  /\ (forall n, _isAsideEquivalent (element_at doc n) <> Ok false ->
                _isAsideEquivalent (element_at (dom t) n)
                = _isAsideEquivalent (element_at doc n)
                /\ count_selectors TextContainer n (containerSelectors t) = 0).

(** The bookkeeping of the [selector > p] entries: an element other than
    the body gets at most one, and none before it is marked seen. *)
Definition child_selectors_invariant (doc : document) (t : traversal) : Prop :=
  documentBody (dom t) = documentBody doc
  /\ (documentBody doc ∉ seenNodes t)
  /\ forall n, n <> documentBody doc ->
       count_selectors ChildParagraphs n (containerSelectors t) <= 1
       /\ (n ∉ seenNodes t ->
           count_selectors ChildParagraphs n (containerSelectors t) = 0).

(** Every collected selector has its generated class on its element. *)
Definition classes_in_place (t : traversal) : Prop :=
  forall c, In c (containerSelectors t) ->
            has_container_class (element_at (dom t) (selector_node c)) = true.




Definition injected_names : string :=
  ".lindy-font-size, .lindy-text-chain-override, .lindy-node-overrides".

(** The leaf is visible and sits directly in the body of [doc]. *)
Definition visible (doc : document) (leaf : node) : bool :=
  negb (Z.eqb (offsetHeight (element_at doc leaf)) 0).

Definition child_of_body (doc : document) (leaf : node) : bool :=
  match parentElement (element_at doc leaf) with
  | Some p => Nat.eqb p (documentBody doc)
  | None => false
  end.

(** The attribute names of [e'] are those of [e], followed by [class] if
    [e] had no such attribute and [e'] has one. *)
Definition class_attribute_created (e e' : element) : Prop :=
  attributeNames e' = attributeNames e
  \/ (hasAttribute e "class" = false /\ attributeNames e' = attributeNames e ++ ["class"]).

(** The traversal has only added classes of the generated pattern to the
    elements of [doc], with the [class] attribute where there was none, and
    changed nothing else of them. *)
Definition only_container_classes_added (doc : document) (t : traversal) : Prop :=
  treeOrder (dom t) = treeOrder doc
  /\ forall n,
       tagName (element_at (dom t) n) = tagName (element_at doc n)
       /\ elementId (element_at (dom t) n) = elementId (element_at doc n)
       /\ class_attribute_created (element_at doc n) (element_at (dom t) n)
       /\ computedStyle (element_at (dom t) n) = computedStyle (element_at doc n)
       /\ exists added,
            classList (element_at (dom t) n) = classList (element_at doc n) ++ added
            /\ forallb (JS.startsWith "container_") added = true
            /\ (added <> [] -> hasAttribute (element_at (dom t) n) "class" = true).

Definition is_text_container (c : container_selector) : bool :=
  kind_eqb (selector_kind_of c) TextContainer.

(** The collected background colours are not transparent, and there are no
    more of them than text-container selectors. *)
Definition backgrounds_invariant (t : traversal) : Prop :=
  forallb (fun c => negb (JS.includes "rgba(0, 0, 0, 0)" c)) (backgroundColors t) = true
  /\ length (backgroundColors t)
     <= length (List.filter is_text_container (containerSelectors t)).

(** [n] lies strictly below the body of [doc]; [n] is the body or lies
    below it. *)
Definition below_body (doc : document) (n : node) : Prop :=
  exists k, ancestor doc (S k) n = Some (documentBody doc).

Definition body_or_below (doc : document) (n : node) : Prop :=
  exists k, ancestor doc k n = Some (documentBody doc).

Definition stays_below_body (doc : document) (t : traversal) : Prop :=
  (forall n, n ∈ seenNodes t -> below_body doc n)
  /\ (forall c, In c (containerSelectors t) -> body_or_below doc (selector_node c)).

(** The characters a sibling selector is made of. *)
Definition is_selector_char (c : ascii) : bool :=
  Ascii.eqb c "." || is_name_char c.

End Counting.

End Props.

(** * Properties *)

(** ** Strings *)
Lemma startsWith_app p s t : JS.startsWith p s = true -> JS.startsWith p (s +:+ t) = true.
Proof.
  revert s. induction p as [|a p IH]; intros s H; [reflexivity|].
  destruct s as [|b s]; simpl in *; [discriminate|].
  destruct (Ascii.eqb a b); [apply IH; exact H | discriminate].
Qed.

Lemma includes_app_l w s t : JS.includes w s = true -> JS.includes w (s +:+ t) = true.
Proof.
  induction s as [|c s IH]; simpl; intros H.
  - rewrite orb_false_r in H. destruct w; [|discriminate].
    destruct t; reflexivity.
  - apply orb_true_iff in H. apply orb_true_iff. destruct H as [H|H].
    + left. apply (startsWith_app w (String c s) t H).
    + right. apply IH, H.
Qed.

Lemma toLowerCase_app s t : JS.toLowerCase (s +:+ t) = JS.toLowerCase s +:+ JS.toLowerCase t.
Proof. induction s as [|c s IH]; simpl; [reflexivity | now rewrite IH]. Qed.

Lemma startsWith_refl_app p s : JS.startsWith p (p +:+ s) = true.
Proof. induction p as [|a p IH]; simpl; [reflexivity|]. now rewrite Ascii.eqb_refl. Qed.


Example JS_replace_first : JS.replace "600" "1200" "a 600 b 600" = "a 1200 b 600".
Proof. reflexivity. Qed.

Example JS_round_half : JS.Math_round (5 # 2) = 3%Z /\ JS.Math_round (-(1 # 2)) = 0%Z.
Proof. split; reflexivity. Qed.

Example JS_toString : JS.Z_toString 1200 = "1200" /\ JS.Z_toString 0 = "0" /\ JS.Z_toString (-5) = "-5".
Proof. repeat split; reflexivity. Qed.


(** ** The override rule generator *)
Section OverrideRules.
Import Dom IterateDOM.

Lemma override_styles_cases (currentSelector : string) (activeStyle : CSSStyleDeclaration) :
  _getNodeOverrideStyles currentSelector activeStyle =
    (if String.eqb (display activeStyle) "flex" && String.eqb (flexDirection activeStyle) "row"
     then [currentSelector +:+ " { display: block; }"] else []) ++
    (if String.eqb (display activeStyle) "grid"
     then [currentSelector +:+ " {
            display: block;
            grid-template-columns: 1fr;
            grid-template-areas: none;
            column-gap: 0;
        }"] else []).
Proof.
  unfold _getNodeOverrideStyles.
  destruct (String.eqb (display activeStyle) "flex" && String.eqb (flexDirection activeStyle) "row");
    destruct (String.eqb (display activeStyle) "grid"); reflexivity.
Qed.

Lemma override_styles_length (currentSelector : string) (activeStyle : CSSStyleDeclaration) :
  length (_getNodeOverrideStyles currentSelector activeStyle) <= 1.
Proof.
  rewrite override_styles_cases.
  destruct (String.eqb (display activeStyle) "flex") eqn:Hflex; simpl.
  - apply String.eqb_eq in Hflex. rewrite Hflex. simpl.
    destruct (String.eqb (flexDirection activeStyle) "row"); simpl; lia.
  - destruct (String.eqb (display activeStyle) "grid"); simpl; lia.
Qed.

(** C9: a container whose computed style is [display: flex] with
    [flex-direction: row] gets exactly the one rule
    [<selector> { display: block; }]; a style that is neither such a flex row
    nor a grid gets no rule at all. *)
Theorem flex_row_override_exact (currentSelector : string)
    (flexRow other : CSSStyleDeclaration) :
  display flexRow = "flex" ->
  flexDirection flexRow = "row" ->
  display other <> "grid" ->
  ~ (display other = "flex" /\ flexDirection other = "row") ->
  _getNodeOverrideStyles currentSelector flexRow
    = [currentSelector +:+ " { display: block; }"]
  /\ _getNodeOverrideStyles currentSelector other = [].
Proof.
  intros Hd Hf Hgrid Hrow. rewrite !override_styles_cases. split.
  - rewrite Hd, Hf. reflexivity.
  - destruct (String.eqb (display other) "grid") eqn:Eg.
    { apply String.eqb_eq in Eg. contradiction. }
    destruct (String.eqb (display other) "flex") eqn:Ed;
      destruct (String.eqb (flexDirection other) "row") eqn:Ef; try reflexivity.
    apply String.eqb_eq in Ed. apply String.eqb_eq in Ef. exfalso. apply Hrow. now split.
Qed.

Lemma flex_row_override_exact_witness :
  _getNodeOverrideStyles "div.container_123"
      {| display := "flex"; flexDirection := "row"; backgroundColor := "rgb(0, 0, 0)" |}
    = ["div.container_123 { display: block; }"]
  /\ _getNodeOverrideStyles "div.container_123"
      {| display := "flex"; flexDirection := "column"; backgroundColor := "rgb(0, 0, 0)" |}
    = [].
Proof.
  apply (flex_row_override_exact "div.container_123"
           {| display := "flex"; flexDirection := "row"; backgroundColor := "rgb(0, 0, 0)" |}
           {| display := "flex"; flexDirection := "column"; backgroundColor := "rgb(0, 0, 0)" |}).
  - reflexivity.
  - reflexivity.
  - simpl. discriminate.
  - simpl. intros [_ H]. discriminate H.
Defined.

End OverrideRules.

(** ** The fallback to broader leaves *)
Section Fallback.
Import Dom IterateDOM Examples.

(** C7 (the code departs from it): without paragraph-like elements the
    query result is an empty [NodeList], which is truthy, so the broader
    query is never made: no leaf is walked and nothing is collected, although
    [div, span] would have selected elements. *)
Theorem no_fallback_on_div_only_page :
  querySelectorAll div_only_page (documentBody div_only_page) globalParagraphSelector = []
  /\ querySelectorAll div_only_page (documentBody div_only_page) "div, span" = [3; 4]
  /\ paragraphs_of div_only_page = []
  /\ iterateDOM counter 10 div_only_page 0 = Ok (initial div_only_page 0).
Proof. repeat split; vm_compute; reflexivity. Qed.

Lemma paragraphs_of_never_falls_back (doc : document) :
  paragraphs_of doc = querySelectorAll doc (documentBody doc) globalParagraphSelector.
Proof. reflexivity. Qed.

End Fallback.

(** ** Breakpoint scaling *)
Section Breakpoints.
Import CssOverride.

Example scale_single_breakpoint :
  scaleBreakpoints_AtRule 2
    {| name := "media"; params := "(max-width: 600px)"; atrule_alreadyProcessed := false |}
  = {| name := "media"; params := "(max-width: 1200px)"; atrule_alreadyProcessed := true |}.
Proof. vm_compute. reflexivity. Qed.

Lemma scale_processed_unchanged (conditionScale : Q) (rule : at_rule) :
  atrule_alreadyProcessed rule = true ->
  scaleBreakpoints_AtRule conditionScale rule = rule.
Proof.
  intros H. unfold scaleBreakpoints_AtRule. rewrite H.
  destruct (String.eqb (name rule) "media"); reflexivity.
Qed.

(** C3 (the code departs from it): with two literals in the condition, the
    second replacement hits the first occurrence of its digits in the
    condition as rewritten so far.  Scaling
    [(min-width: 600px) and (max-width: 1200px)] by 2 rescales the first
    literal twice and leaves the second one alone. *)
Theorem scale_two_breakpoints_wrong :
  JS.matchAll_digits "(min-width: 600px) and (max-width: 1200px)" = ["600"; "1200"]
  /\ params (scaleBreakpoints_AtRule 2
       {| name := "media"; params := "(min-width: 600px) and (max-width: 1200px)";
          atrule_alreadyProcessed := false |})
     = "(min-width: 2400px) and (max-width: 1200px)"
  /\ params (scaleBreakpoints_AtRule 2
       {| name := "media"; params := "(min-width: 600px) and (max-width: 1200px)";
          atrule_alreadyProcessed := false |})
     <> "(min-width: 1200px) and (max-width: 2400px)".
Proof.
  split; [|split].
  - vm_compute. reflexivity.
  - vm_compute. reflexivity.
  - vm_compute. discriminate.
Qed.

End Breakpoints.

(** ** URL rewriting *)
Section UrlRewriting.
Import CssOverride.

Variable URL_href : string -> string -> option string.

(** C10: a declaration whose value does not begin with [url(] is returned
    as it is by the URL rewriting pass, whatever url() references occur
    later in the value. *)
Theorem urlRewrite_skips_other_values (baseUrl : string) (decl : declaration) :
  JS.startsWith "url(" (value decl) = false ->
  urlRewrite_Declaration URL_href baseUrl decl = Ok decl.
Proof. intros H. unfold urlRewrite_Declaration. rewrite H. reflexivity. Qed.

End UrlRewriting.

Section UrlRewritingExamples.
Import CssOverride Examples.

Example resolve_parent_directory :
  resolve "../img/a.png" "https://site.com/css/a.css" = Some "https://site.com/img/a.png".
Proof. vm_compute. reflexivity. Qed.

Lemma urlRewrite_skips_other_values_witness :
  urlRewrite_Declaration resolve "https://site.com/css/a.css"
    {| prop := "background"; value := "#fff url(a.png)"; important := false;
       alreadyProcessed := false |}
  = Ok {| prop := "background"; value := "#fff url(a.png)"; important := false;
          alreadyProcessed := false |}.
Proof.
  apply (urlRewrite_skips_other_values resolve "https://site.com/css/a.css"
           {| prop := "background"; value := "#fff url(a.png)"; important := false;
              alreadyProcessed := false |}).
  reflexivity.
Defined.

(** The [@import] branch indexes the array of whole matches with 1: with a
    single reference there is no second match, the string [undefined] is
    resolved and looked for, and the rule stays as it was. *)
Example import_rule_not_rewritten :
  urlRewrite_AtRule resolve "https://site.com/css/a.css"
    {| name := "import"; params := "url(foo.css)"; atrule_alreadyProcessed := false |}
  = Ok {| name := "import"; params := "url(foo.css)"; atrule_alreadyProcessed := false |}.
Proof. vm_compute. reflexivity. Qed.

End UrlRewritingExamples.

(** *** The declaration pattern on a single reference *)
Section UrlPattern.
Import CssOverride Props.

Lemma has_char_cons c d s :
  JS.has_char c (String d s) = false -> Ascii.eqb c d = false /\ JS.has_char c s = false.
Proof. simpl. intros H. apply orb_false_iff in H. exact H. Qed.

Lemma strip_optional_other c s :
  JS.has_char c s = false -> strip_optional c s = s.
Proof.
  destruct s as [|d s]; [reflexivity|]. intros H.
  apply has_char_cons in H as [H _]. simpl. now rewrite H.
Qed.

Lemma until_paren_app u rest :
  JS.has_char ")" u = false -> until_paren (u +:+ String ")" rest) = Some (u, rest).
Proof.
  induction u as [|c u IH]; intros H; [reflexivity|].
  apply has_char_cons in H as [Hc Hu]. simpl.
  rewrite Ascii.eqb_sym, Hc. rewrite (IH Hu). reflexivity.
Qed.

Lemma lazy_capture_plain u :
  JS.has_char double_quote u = false -> JS.has_char "'" u = false -> lazy_capture u = u.
Proof.
  induction u as [|c u IH]; intros Hq Ha; [reflexivity|].
  apply has_char_cons in Hq as [Hq Hq']. apply has_char_cons in Ha as [Ha Ha'].
  cbn [lazy_capture]. unfold is_closing_quotes.
  cbn [strip_optional]. rewrite Hq. cbn [strip_optional]. rewrite Ha.
  cbn [JS.is_empty]. now rewrite IH.
Qed.

Lemma startsWith_snoc_other c p u r :
  JS.has_char c p = false ->
  JS.startsWith p (u +:+ String c r) = JS.startsWith p u.
Proof.
  revert u. induction p as [|a p IH]; intros u H; [now destruct u|].
  apply has_char_cons in H as [Hc Hp].
  destruct u as [|b u].
  - change (EmptyString +:+ String c r) with (String c r).
    cbn [JS.startsWith]. rewrite Ascii.eqb_sym, Hc. reflexivity.
  - change (String b u +:+ String c r) with (String b (u +:+ String c r)).
    cbn [JS.startsWith]. destruct (Ascii.eqb a b); [apply IH, Hp | reflexivity].
Qed.

Lemma url_captures_skip_prefix a rest :
  url_captures_from (String.length a) (a +:+ rest) = url_captures_from 0 rest.
Proof.
  induction a as [|x a IH]; [reflexivity|].
  change (String x a +:+ rest) with (String x (a +:+ rest)).
  cbn [String.length url_captures_from]. exact IH.
Qed.

Lemma url_captures_none s :
  JS.includes "url(" s = false -> url_captures_from 0 s = [].
Proof.
  induction s as [|c s IH]; intros H; [reflexivity|].
  cbn [JS.includes] in H. apply orb_false_iff in H as [Hs Hi].
  cbn [url_captures_from]. unfold match_url_at. rewrite Hs. apply IH, Hi.
Qed.

Lemma getSubstitution_plain matched before after repl :
  JS.has_char "$" repl = false -> JS.getSubstitution matched before after repl = repl.
Proof.
  induction repl as [|c r IH]; intros H; [reflexivity|].
  apply has_char_cons in H as [Hc Hr]. cbn [JS.getSubstitution].
  rewrite Ascii.eqb_sym, Hc. now rewrite IH.
Qed.

Lemma drop_app_length s t : JS.drop (String.length s) (s +:+ t) = t.
Proof. induction s as [|c s IH]; simpl; [now destruct t | exact IH]. Qed.

Lemma string_length_app s t : String.length (s +:+ t) = String.length s + String.length t.
Proof. induction s as [|c s IH]; simpl; [reflexivity | now rewrite IH]. Qed.

Lemma startsWith_split p s : JS.startsWith p s = true -> s = p +:+ JS.drop (String.length p) s.
Proof.
  revert s. induction p as [|a p IH]; intros s H; [now destruct s|].
  destruct s as [|b s]; simpl in H; [discriminate|].
  destruct (Ascii.eqb a b) eqn:E; [|discriminate].
  apply Ascii.eqb_eq in E. subst b.
  change (String a s = String a (p +:+ JS.drop (String.length p) s)).
  f_equal. apply IH, H.
Qed.

Lemma startsWith_shorter p q s :
  JS.startsWith (p +:+ q) s = true -> JS.startsWith p s = true.
Proof.
  revert s. induction p as [|a p IH]; intros s H; [reflexivity|].
  change (String a p +:+ q) with (String a (p +:+ q)) in H.
  destruct s as [|b s]; cbn [JS.startsWith] in *; [discriminate|].
  destruct (Ascii.eqb a b); [apply IH, H | discriminate].
Qed.

Lemma string_append_assoc (a b c : string) : (a +:+ b) +:+ c = a +:+ (b +:+ c).
Proof.
  induction a as [|x a IH]; [reflexivity|].
  change (String x ((a +:+ b) +:+ c) = String x (a +:+ (b +:+ c))). now rewrite IH.
Qed.

Lemma append_empty_r s : s +:+ EmptyString = s.
Proof.
  induction s as [|c s IH]; [reflexivity|].
  change (String c (s +:+ EmptyString) = String c s). now rewrite IH.
Qed.

(** The pattern finds the reference of [url(u)] and, when no [url(]
    follows, nothing else. *)
Lemma matchAll_url_single u rest :
  relative_reference u = true ->
  JS.includes "url(" rest = false ->
  matchAll_url ("url(" +:+ u +:+ ")" +:+ rest) = [u].
Proof.
  unfold relative_reference. intros H Hrest.
  repeat (apply andb_true_iff in H as [H ?]).
  destruct u as [|c u]; [discriminate|].
  repeat match goal with X : negb _ = true |- _ => apply negb_true_iff in X end.
  assert (Hstrip : forall r, strip_optional "'" (strip_optional double_quote (String c u +:+ r))
                             = String c u +:+ r).
  { intros r.
    match goal with X : JS.has_char double_quote _ = false |- _ =>
      apply has_char_cons in X as [X1 _] end.
    match goal with X : JS.has_char "'" _ = false |- _ =>
      apply has_char_cons in X as [X2 _] end.
    change (String c u +:+ r) with (String c (u +:+ r)).
    cbn [strip_optional]. rewrite X1. cbn [strip_optional]. now rewrite X2. }
  unfold matchAll_url.
  change (")" +:+ rest) with (String ")" rest).
  change ("url(" +:+ String c u +:+ String ")" rest)
    with (String "u" ("rl(" +:+ String c u +:+ String ")" rest)).
  cbn [url_captures_from]. unfold match_url_at.
  change (JS.startsWith "url(" (String "u" ("rl(" +:+ String c u +:+ String ")" rest)))
    with true.
  cbv iota.
  change (JS.drop 4 (String "u" ("rl(" +:+ String c u +:+ String ")" rest)))
    with (String c u +:+ String ")" rest).
  assert (Hlook : lookahead_excluded (String c u +:+ String ")" rest) = false).
  { match goal with X : lookahead_excluded _ = false |- _ => rename X into Hl end.
    unfold lookahead_excluded in *. rewrite Hstrip.
    specialize (Hstrip EmptyString).
    rewrite append_empty_r in Hstrip.
    rewrite Hstrip in Hl.
    rewrite !(startsWith_snoc_other ")") by reflexivity. exact Hl. }
  rewrite Hlook, Hstrip.
  rewrite until_paren_app by assumption.
  rewrite lazy_capture_plain by assumption.
  f_equal.
  replace ("rl(" +:+ String c u +:+ String ")" rest)
    with (("rl(" +:+ String c u +:+ ")") +:+ rest)
    by (rewrite !string_append_assoc; reflexivity).
  replace (String.length (String "u" (("rl(" +:+ String c u +:+ ")") +:+ rest))
           - String.length rest - 1)
    with (String.length ("rl(" +:+ String c u +:+ ")"))
    by (cbn [String.length]; rewrite !string_length_app; cbn [String.length]; lia).
  rewrite url_captures_skip_prefix. now apply url_captures_none.
Qed.

End UrlPattern.

Section UrlDeclarations.
Import CssOverride Props.

Variable URL_href : string -> string -> option string.

Lemma replace_single_reference u href rest :
  relative_reference u = true ->
  JS.has_char "$" href = false ->
  JS.replace u href ("url(" +:+ u +:+ ")" +:+ rest) = "url(" +:+ href +:+ ")" +:+ rest.
Proof.
  unfold relative_reference. intros H Hd.
  repeat (apply andb_true_iff in H as [H _]).
  destruct u as [|c u]; [discriminate|].
  apply negb_true_iff in H. cbn [JS.has_char] in H.
  repeat (apply orb_false_iff in H as [? H]).
  unfold JS.replace.
  set (tail := ")" +:+ rest).
  assert (Hi : JS.indexOf (String c u) ("url(" +:+ String c u +:+ tail) = Some 4).
  { change ("url(" +:+ String c u +:+ tail)
      with (String "u" (String "r" (String "l" (String "(" (String c u +:+ tail))))).
    cbn [JS.indexOf JS.startsWith].
    repeat match goal with X : Ascii.eqb c _ = false |- _ => rewrite X; clear X end.
    cbn [option_map].
    change (if JS.startsWith (String c u) (String c u +:+ tail) then Some 0
            else match String c u +:+ tail with
                 | EmptyString => None
                 | String _ s' => option_map S (JS.indexOf (String c u) s')
                 end)
      with (JS.indexOf (String c u) (String c u +:+ tail)).
    assert (E : JS.indexOf (String c u) (String c u +:+ tail) = Some 0).
    { destruct (String c u +:+ tail) eqn:Es.
      - discriminate Es.
      - cbn [JS.indexOf]. rewrite <- Es. now rewrite startsWith_refl_app. }
    rewrite E. reflexivity. }
  rewrite Hi.
  change (JS.take 4 ("url(" +:+ String c u +:+ tail)) with "url(".
  change (JS.drop (4 + String.length (String c u)) ("url(" +:+ String c u +:+ tail))
    with (JS.drop (String.length (String c u)) (String c u +:+ tail)).
  rewrite drop_app_length.
  rewrite getSubstitution_plain by assumption. reflexivity.
Qed.

(** C4, as the pass behaves: a declaration not yet processed whose value
    is [url(u)], followed by text without a further [url(], and whose
    reference [u] is relative, gets [u] replaced by [href], its resolution
    against the style sheet's URL; a value that begins with a [data:],
    fragment or http(s) reference and holds no further [url(] keeps its
    value; a value that begins with [url(data:] is not touched at all. *)
Theorem urlRewrite_declaration_resolves
    (baseUrl property : string) (imp : bool) (u href rest : string)
    (absolute inline : declaration) :
  relative_reference u = true ->
  JS.includes "url(" rest = false ->
  URL_href u baseUrl = Some href ->
  JS.has_char "$" href = false ->
  JS.startsWith "url(" (value absolute) = true ->
  lookahead_excluded (JS.drop 4 (value absolute)) = true ->
  JS.includes "url(" (JS.drop 4 (value absolute)) = false ->
  JS.startsWith "url(data:" (value inline) = true ->
  urlRewrite_Declaration URL_href baseUrl
      {| prop := property; value := "url(" +:+ u +:+ ")" +:+ rest; important := imp;
         alreadyProcessed := false |}
    = Ok {| prop := property; value := "url(" +:+ href +:+ ")" +:+ rest; important := imp;
            alreadyProcessed := true |}
  /\ (exists decl', urlRewrite_Declaration URL_href baseUrl absolute = Ok decl'
                    /\ value decl' = value absolute /\ prop decl' = prop absolute)
  /\ urlRewrite_Declaration URL_href baseUrl inline = Ok inline.
Proof.
  intros Hrel Hrest Hurl Hdollar Habs Hlook Hnone Hdata. split; [|split].
  - unfold urlRewrite_Declaration. cbn [value alreadyProcessed prop important].
    change (JS.startsWith "url(" ("url(" +:+ u +:+ ")" +:+ rest)) with true. cbv iota.
    change (JS.startsWith "url(data:" ("url(" +:+ u +:+ ")" +:+ rest))
      with (JS.startsWith "data:" (u +:+ String ")" rest)).
    assert (Hd : JS.startsWith "data:" (u +:+ String ")" rest) = false).
    { rewrite (startsWith_snoc_other ")") by reflexivity.
      unfold relative_reference in Hrel.
      repeat (apply andb_true_iff in Hrel as [Hrel ?]).
      repeat match goal with X : negb _ = true |- _ => apply negb_true_iff in X end.
      match goal with X : lookahead_excluded _ = false |- _ => rename X into Hl end.
      unfold lookahead_excluded in Hl.
      rewrite (strip_optional_other double_quote u) in Hl by assumption.
      rewrite (strip_optional_other "'" u) in Hl by assumption.
      repeat (apply orb_false_iff in Hl as [Hl _]). exact Hl. }
    rewrite Hd. rewrite matchAll_url_single by assumption.
    cbn [fold_left]. unfold rewrite_match, new_URL. cbn [bind]. rewrite Hurl. cbn [bind].
    rewrite replace_single_reference by assumption. reflexivity.
  - unfold urlRewrite_Declaration. rewrite Habs.
    destruct (alreadyProcessed absolute); [eexists; repeat split; reflexivity|].
    destruct (JS.startsWith "url(data:" (value absolute)); [eexists; repeat split; reflexivity|].
    assert (Hm : matchAll_url (value absolute) = []).
    { pose proof (startsWith_split _ _ Habs) as Hv.
      change (String.length "url(") with 4 in Hv.
      remember (JS.drop 4 (value absolute)) as r eqn:Hr.
      rewrite Hv. unfold matchAll_url.
      change ("url(" +:+ r) with (String "u" (String "r" (String "l" (String "(" r)))).
      cbn [url_captures_from]. unfold match_url_at at 1.
      cbn [JS.startsWith Ascii.eqb Bool.eqb JS.drop]. rewrite Hlook.
      unfold match_url_at. cbn [JS.startsWith Ascii.eqb Bool.eqb].
      apply url_captures_none, Hnone. }
    rewrite Hm. cbn [fold_left bind]. eexists. repeat split; reflexivity.
  - unfold urlRewrite_Declaration.
    assert (Hs : JS.startsWith "url(" (value inline) = true).
    { apply (startsWith_shorter "url(" "data:"). exact Hdata. }
    rewrite Hs, Hdata. destruct (alreadyProcessed inline); reflexivity.
Qed.

End UrlDeclarations.

Section UrlDeclarationExamples.
Import CssOverride Props Examples.

Lemma urlRewrite_declaration_resolves_witness :
  urlRewrite_Declaration resolve "https://site.com/css/a.css"
      {| prop := "background"; value := "url(../img/a.png) no-repeat"; important := false;
         alreadyProcessed := false |}
    = Ok {| prop := "background"; value := "url(https://site.com/img/a.png) no-repeat";
            important := false; alreadyProcessed := true |}
  /\ (exists decl',
        urlRewrite_Declaration resolve "https://site.com/css/a.css"
          {| prop := "src"; value := "url(https://cdn.site.com/font.woff)";
             important := false; alreadyProcessed := false |} = Ok decl'
        /\ value decl' = "url(https://cdn.site.com/font.woff)" /\ prop decl' = "src")
  /\ urlRewrite_Declaration resolve "https://site.com/css/a.css"
       {| prop := "background-image"; value := "url(data:image/png;base64,AAAA)";
          important := false; alreadyProcessed := false |}
     = Ok {| prop := "background-image"; value := "url(data:image/png;base64,AAAA)";
             important := false; alreadyProcessed := false |}.
Proof.
  apply (urlRewrite_declaration_resolves resolve "https://site.com/css/a.css"
           "background" false "../img/a.png" "https://site.com/img/a.png" " no-repeat"
           {| prop := "src"; value := "url(https://cdn.site.com/font.woff)";
              important := false; alreadyProcessed := false |}
           {| prop := "background-image"; value := "url(data:image/png;base64,AAAA)";
              important := false; alreadyProcessed := false |});
    vm_compute; reflexivity.
Defined.

Example url_rewrite_spec_example :
  urlRewrite_Declaration resolve "https://site.com/css/a.css"
    {| prop := "background-image"; value := "url(../img/a.png)"; important := false;
       alreadyProcessed := false |}
  = Ok {| prop := "background-image"; value := "url(https://site.com/img/a.png)";
          important := false; alreadyProcessed := true |}.
Proof. vm_compute. reflexivity. Qed.

(** Against C4 as stated: the value [#fff url(a.png)] holds a relative
    reference, which the pattern would capture and which resolves, yet the
    pass returns the declaration as it is, because the value does not begin
    with [url(]. *)
Lemma urlRewrite_misses_later_reference :
  matchAll_url "#fff url(a.png)" = ["a.png"]
  /\ resolve "a.png" "https://site.com/css/a.css" = Some "https://site.com/css/a.png"
  /\ urlRewrite_Declaration resolve "https://site.com/css/a.css"
       {| prop := "background"; value := "#fff url(a.png)"; important := false;
          alreadyProcessed := false |}
     = Ok {| prop := "background"; value := "#fff url(a.png)"; important := false;
             alreadyProcessed := false |}.
Proof. split; [|split]; vm_compute; reflexivity. Qed.

End UrlDeclarationExamples.

(** ** The background colour resolver *)
Section BackgroundColorResolver.
Import StyleChanges.

Variable getBrightness : string -> Q.
Variables originalBackground backgroundColor activeColorTheme : string.

Lemma exceeds_threshold (b : Q) : negb (Qle_bool b 230) = true <-> (230 < b)%Q.
Proof.
  rewrite negb_true_iff. split.
  - intros H. apply Qnot_le_lt. intros Hle. apply Qle_bool_iff in Hle. congruence.
  - intros H. destruct (Qle_bool b 230) eqn:E; [|reflexivity].
    apply Qle_bool_iff in E. exfalso. apply (Qlt_not_le _ _ H E).
Qed.

Lemma theme_read_after_set (name other v : string) (persist : bool)
    (store : gmap string string) :
  name <> other ->
  Theme.getThemeValue (Theme.setCssThemeVariable name v persist store) other
  = Theme.getThemeValue store other.
Proof.
  intros H. unfold Theme.getThemeValue, Theme.setCssThemeVariable.
  now rewrite lookup_insert_ne.
Qed.

(** C6: the resolver picks the first sample, or the recorded body colour
    when there is none; a pick brighter than 230 becomes white; the result is
    stored as the original background, and as the active background colour
    exactly when the theme is unset or auto. *)
Theorem background_color_resolved (samples : list string) (store : gmap string string) :
  originalBackground <> backgroundColor ->
  originalBackground <> activeColorTheme ->
  (230 < getBrightness "rgb(250,250,250)")%Q ->
  (getBrightness "rgb(30,30,30)" <= 230)%Q ->
  let picked := match samples with
                | first :: _ => first
                | [] => Theme.getThemeValue store originalBackground
                end in
  let themeName := Theme.getThemeValue store activeColorTheme in
  let process := _processBackgroundColors getBrightness originalBackground
                   backgroundColor activeColorTheme in
  (exists resolved,
      ((230 < getBrightness picked)%Q -> resolved = "white")
      /\ ((getBrightness picked <= 230)%Q -> resolved = picked)
      /\ process samples store !! originalBackground = Some resolved
      /\ (themeName = EmptyString \/ themeName = "auto" ->
          process samples store !! backgroundColor = Some resolved)
      /\ (themeName <> EmptyString -> themeName <> "auto" ->
          process samples store !! backgroundColor = store !! backgroundColor))
  /\ process ["rgb(250,250,250)"] store !! originalBackground = Some "white"
  /\ process ["rgb(30,30,30)"] store !! originalBackground = Some "rgb(30,30,30)".
Proof.
  intros Hbg Hact Hlight Hdark picked themeName process.
  assert (Horig : forall l, process l store !! originalBackground
            = Some (let p := match l with
                             | first :: _ => first
                             | [] => Theme.getThemeValue store originalBackground
                             end in
                    if negb (Qle_bool (getBrightness p) 230) then "white" else p)).
  { intros l. unfold process, _processBackgroundColors, Theme.setCssThemeVariable.
    cbv zeta.
    match goal with |- (if ?c then _ else _) !! _ = _ => destruct c end.
    - rewrite lookup_insert_ne by congruence. apply lookup_insert_eq.
    - apply lookup_insert_eq. }
  split; [|split].
  - exists (if negb (Qle_bool (getBrightness picked) 230) then "white" else picked).
    split; [|split; [|split; [|split]]].
    + intros H. apply exceeds_threshold in H. now rewrite H.
    + intros H. apply Qle_bool_iff in H. now rewrite H.
    + apply Horig.
    + intros Htheme. unfold process, _processBackgroundColors. cbv zeta.
      rewrite !theme_read_after_set by assumption. fold themeName.
      assert (Hc : negb (JS.truthy themeName) || String.eqb themeName "auto" = true).
      { destruct Htheme as [-> | ->]; reflexivity. }
      rewrite Hc. unfold Theme.setCssThemeVariable. apply lookup_insert_eq.
    + intros Hset Hauto. unfold process, _processBackgroundColors. cbv zeta.
      rewrite !theme_read_after_set by assumption. fold themeName.
      assert (Hc : negb (JS.truthy themeName) || String.eqb themeName "auto" = false).
      { apply orb_false_iff. split.
        - destruct themeName; [contradiction | reflexivity].
        - apply String.eqb_neq, Hauto. }
      rewrite Hc. unfold Theme.setCssThemeVariable. now rewrite lookup_insert_ne.
  - rewrite Horig. cbv zeta. apply exceeds_threshold in Hlight. now rewrite Hlight.
  - rewrite Horig. cbv zeta. apply Qle_bool_iff in Hdark. now rewrite Hdark.
Qed.

End BackgroundColorResolver.

Section BackgroundColorExamples.
Import StyleChanges Examples.

Lemma background_color_resolved_witness :
  let store : gmap string string :=
    {[ "--lindy-original-background-color" := "rgb(12,12,12)" ]} in
  let process := _processBackgroundColors rgb_brightness
                   "--lindy-original-background-color" "--lindy-background-color"
                   "--lindy-color-theme" in
  (exists resolved,
      ((230 < rgb_brightness "rgb(250,250,250)")%Q -> resolved = "white")
      /\ ((rgb_brightness "rgb(250,250,250)" <= 230)%Q -> resolved = "rgb(250,250,250)")
      /\ process ["rgb(250,250,250)"] store !! "--lindy-original-background-color"
         = Some resolved
      /\ (Theme.getThemeValue store "--lindy-color-theme" = EmptyString
          \/ Theme.getThemeValue store "--lindy-color-theme" = "auto" ->
          process ["rgb(250,250,250)"] store !! "--lindy-background-color" = Some resolved)
      /\ (Theme.getThemeValue store "--lindy-color-theme" <> EmptyString ->
          Theme.getThemeValue store "--lindy-color-theme" <> "auto" ->
          process ["rgb(250,250,250)"] store !! "--lindy-background-color"
          = store !! "--lindy-background-color"))
  /\ process ["rgb(250,250,250)"] store !! "--lindy-original-background-color" = Some "white"
  /\ process ["rgb(30,30,30)"] store !! "--lindy-original-background-color"
     = Some "rgb(30,30,30)".
Proof.
  intros store process.
  apply (background_color_resolved rgb_brightness
           "--lindy-original-background-color" "--lindy-background-color"
           "--lindy-color-theme" ["rgb(250,250,250)"] store).
  - discriminate.
  - discriminate.
  - vm_compute. reflexivity.
  - vm_compute. discriminate.
Defined.

Example background_color_examples :
  let store : gmap string string :=
    {[ "--lindy-original-background-color" := "rgb(12,12,12)";
       "--lindy-color-theme" := "dark" ]} in
  let process := _processBackgroundColors rgb_brightness
                   "--lindy-original-background-color" "--lindy-background-color"
                   "--lindy-color-theme" in
  process [] store !! "--lindy-original-background-color" = Some "rgb(12,12,12)"
  /\ process ["rgb(250,250,250)"] store !! "--lindy-background-color" = None
  /\ process ["rgb(250,250,250)"] ∅ !! "--lindy-background-color" = Some "white".
Proof. repeat split; vm_compute; reflexivity. Qed.

End BackgroundColorExamples.

(** ** The document under class additions and removals *)
Section DomFacts.
Import Dom.

Lemma join_snoc (sep : string) (l : list string) (c : string) :
  JS.join sep (l ++ [c])
  = JS.join sep l +:+ (match l with [] => c | _ => sep +:+ c end).
Proof.
  unfold JS.join. induction l as [|x l IH]; [reflexivity|].
  destruct l as [|y l].
  - reflexivity.
  - change (x +:+ sep +:+ String.concat sep ((y :: l) ++ [c])
            = (x +:+ sep +:+ String.concat sep (y :: l)) +:+ (sep +:+ c)).
    rewrite IH. now rewrite !string_append_assoc.
Qed.

(** Adding a class extends the serialised class attribute. *)
Lemma className_add (token : string) (e : element) :
  exists suffix, class_attribute (classList_add token e) = class_attribute e +:+ suffix.
Proof.
  unfold class_attribute, classList_add. cbn [classList].
  destruct (contains_token token (classList e)).
  - exists EmptyString. now rewrite append_empty_r.
  - rewrite join_snoc. eexists. reflexivity.
Qed.

Lemma remove_element_at (n m : node) (doc : document) :
  element_at (remove n doc) m
  = if Nat.eqb m n then set_parent None (element_at doc n) else element_at doc m.
Proof. reflexivity. Qed.

Lemma remove_classList (n m : node) (doc : document) :
  classList (element_at (remove n doc) m) = classList (element_at doc m).
Proof.
  rewrite remove_element_at. destruct (Nat.eqb m n) eqn:E; [|reflexivity].
  apply Nat.eqb_eq in E. now subst.
Qed.

Lemma remove_matches (selectors : string) (n m : node) (doc : document) :
  matches selectors (element_at (remove n doc) m) = matches selectors (element_at doc m).
Proof.
  rewrite remove_element_at. destruct (Nat.eqb m n) eqn:E; [|reflexivity].
  apply Nat.eqb_eq in E. now subst.
Qed.

Lemma remove_each_classList (l : list node) (doc : document) (m : node) :
  classList (element_at (remove_each l doc) m) = classList (element_at doc m).
Proof.
  revert doc. induction l as [|n l IH]; intros doc; [reflexivity|].
  cbn [remove_each fold_left]. fold (remove_each l (remove n doc)).
  rewrite IH. apply remove_classList.
Qed.

Lemma remove_each_matches (selectors : string) (l : list node) (doc : document) (m : node) :
  matches selectors (element_at (remove_each l doc) m) = matches selectors (element_at doc m).
Proof.
  revert doc. induction l as [|n l IH]; intros doc; [reflexivity|].
  cbn [remove_each fold_left]. fold (remove_each l (remove n doc)).
  rewrite IH. apply remove_matches.
Qed.

Lemma remove_each_nextNode (l : list node) (doc : document) :
  nextNode (remove_each l doc) = nextNode doc.
Proof.
  revert doc. induction l as [|n l IH]; intros doc; [reflexivity|].
  cbn [remove_each fold_left]. fold (remove_each l (remove n doc)). now rewrite IH.
Qed.

Lemma remove_each_treeOrder (l : list node) (doc : document) (m : node) :
  In m (treeOrder (remove_each l doc)) -> In m (treeOrder doc) /\ ~ In m l.
Proof.
  revert doc. induction l as [|n l IH]; intros doc H; [split; [exact H | intros []]|].
  cbn [remove_each fold_left] in H. fold (remove_each l (remove n doc)) in H.
  apply IH in H as [H Hl]. cbn [remove treeOrder] in H.
  apply filter_In in H as [H Hn]. split; [exact H|].
  intros [->|Hin]; [|contradiction].
  rewrite Nat.eqb_refl in Hn. discriminate Hn.
Qed.

(** Removing everything that matches leaves nothing that matches. *)
Lemma remove_matching_none (selectors : string) (doc : document) :
  document_querySelectorAll
    (remove_each (document_querySelectorAll doc selectors) doc) selectors = [].
Proof.
  unfold document_querySelectorAll at 1.
  set (l := document_querySelectorAll doc selectors).
  destruct (List.filter _ _) as [|m rest] eqn:E; [reflexivity|].
  assert (Hin : In m (m :: rest)) by (left; reflexivity).
  rewrite <- E in Hin. apply filter_In in Hin as [Hin Hm].
  apply remove_each_treeOrder in Hin as [Hin Hl].
  rewrite remove_each_matches in Hm.
  exfalso. apply Hl. unfold l, document_querySelectorAll. apply filter_In. now split.
Qed.

End DomFacts.

(** ** The traversal *)
Section TraversalFacts.
Import Dom IterateDOM Props.

Variable random : nat -> string.

Lemma update_element_at (n m : node) (f : element -> element) (doc : document) :
  element_at (update_element n f doc) m
  = if Nat.eqb m n then f (element_at doc n) else element_at doc m.
Proof. reflexivity. Qed.

Lemma element_after_add (n m : node) (token : string) (doc : document) :
  element_at (update_element n (classList_add token) doc) m = element_at doc m
  \/ element_at (update_element n (classList_add token) doc) m
     = classList_add token (element_at doc m).
Proof.
  rewrite update_element_at. destruct (Nat.eqb m n) eqn:E; [|now left].
  apply Nat.eqb_eq in E. subst. now right.
Qed.

Lemma parent_after_add (n m : node) (token : string) (doc : document) :
  parentElement (element_at (update_element n (classList_add token) doc) m)
  = parentElement (element_at doc m).
Proof. destruct (element_after_add n m token doc) as [-> | ->]; reflexivity. Qed.

Lemma height_after_add (n m : node) (token : string) (doc : document) :
  offsetHeight (element_at (update_element n (classList_add token) doc) m)
  = offsetHeight (element_at doc m).
Proof. destruct (element_after_add n m token doc) as [-> | ->]; reflexivity. Qed.


(** A callback that never throws makes [some] the test [existsb]. *)
Lemma some_pure (g : string -> bool) (l : list string) :
  some (fun word => Ok (g word)) l = Ok (existsb g l).
Proof.
  induction l as [|x l IH]; [reflexivity|].
  cbn [some existsb bind]. destruct (g x); [reflexivity | exact IH].
Qed.

(** The classifier by cases: decided by the tag name; else it throws on an
    SVG element; else it is decided by class, id and attributes. *)
Lemma isAsideEquivalent_cases (e : element) :
  _isAsideEquivalent e
  = if aside_tag e then Ok true
    else if svgElement e then TypeError
    else Ok (aside_words e).
Proof.
  unfold _isAsideEquivalent, aside_tag, aside_words, className.
  destruct (String.eqb (tagName e) "HEADER" || String.eqb (tagName e) "FOOTER"
            || String.eqb (tagName e) "ASIDE" || String.eqb (tagName e) "CODE");
    [reflexivity|].
  destruct (svgElement e).
  - reflexivity.
  - cbn [className_toLowerCase bind].
    rewrite (some_pure (fun word =>
               JS.includes word (JS.toLowerCase (class_attribute e))
               || JS.includes word (JS.toLowerCase (elementId e)))).
    reflexivity.
Qed.


Lemma hasAttribute_after_add (token name : string) (e : element) :
  name <> "class" ->
  hasAttribute (classList_add token e) name = hasAttribute e name.
Proof.
  intros Hname. unfold hasAttribute at 1 2. cbn [classList_add attributeNames].
  destruct (hasAttribute e "class"); [reflexivity|].
  rewrite existsb_app. cbn [existsb].
  apply String.eqb_neq in Hname. now rewrite Hname, !orb_false_r.
Qed.

Lemma aside_words_after_add (token : string) (e : element) :
  aside_words e = true -> aside_words (classList_add token e) = true.
Proof.
  unfold aside_words. intros H.
  destruct (className_add token e) as [suffix Hs].
  change (elementId (classList_add token e)) with (elementId e).
  rewrite hasAttribute_after_add by discriminate.
  rewrite Hs.
  destruct (hasAttribute e "data-language"); [apply orb_true_r|].
  rewrite orb_false_r in H |- *.
  apply existsb_exists in H as [word [Hin Hw]]. apply existsb_exists.
  exists word. split; [exact Hin|].
  apply orb_true_iff in Hw. apply orb_true_iff. destruct Hw as [Hw | Hw]; [left | now right].
  rewrite toLowerCase_app. apply includes_app_l, Hw.
Qed.

(** Unless it is false, the outcome of the classifier survives the
    addition of a class: aside-equivalence stays, and so does the throw. *)
Lemma aside_after_classList_add (token : string) (e : element) :
  _isAsideEquivalent e <> Ok false ->
  _isAsideEquivalent (classList_add token e) = _isAsideEquivalent e.
Proof.
  rewrite !isAsideEquivalent_cases.
  change (aside_tag (classList_add token e)) with (aside_tag e).
  change (svgElement (classList_add token e)) with (svgElement e).
  destruct (aside_tag e); [reflexivity|].
  destruct (svgElement e); [reflexivity|].
  destruct (aside_words e) eqn:Hw; [|congruence].
  intros _. now rewrite aside_words_after_add.
Qed.

Lemma aside_after_add (n m : node) (token : string) (doc : document) :
  _isAsideEquivalent (element_at doc m) <> Ok false ->
  _isAsideEquivalent (element_at (update_element n (classList_add token) doc) m)
  = _isAsideEquivalent (element_at doc m).
Proof.
  intros H. destruct (element_after_add n m token doc) as [-> | ->];
    [reflexivity | now apply aside_after_classList_add].
Qed.

Lemma aside_true_after_add (n m : node) (token : string) (doc : document) :
  _isAsideEquivalent (element_at doc m) = Ok true ->
  _isAsideEquivalent (element_at (update_element n (classList_add token) doc) m) = Ok true.
Proof. intros H. rewrite aside_after_add; [exact H | rewrite H; discriminate]. Qed.


(** The fields after the two steps that generate a selector. *)
Lemma process_container_fields (t : traversal) (cur : node) :
  dom (process_container random t cur)
    = update_element cur (classList_add ("container_" +:+ random (randomCalls t))) (dom t)
  /\ seenNodes (process_container random t cur) = seenNodes t
  /\ (exists sel, containerSelectors (process_container random t cur)
        = containerSelectors t
          ++ [{| selector_node := cur; selector_kind_of := TextContainer;
                 selector_text := sel |}])
  /\ (exists l, overrideCssDeclarations (process_container random t cur)
        = overrideCssDeclarations t
          ++ map (fun d => {| override_node := cur; override_text := d |}) l
        /\ length l <= 1).
Proof.
  unfold process_container, _getNodeSelector. cbv zeta.
  match goal with |- context [if ?c then _ else _] => destruct c end;
    cbn [dom seenNodes containerSelectors overrideCssDeclarations
         push_selector concat_overrides push_backgroundColor];
    (split; [reflexivity | split; [reflexivity | split;
       [eexists; reflexivity | eexists; split; [reflexivity | apply override_styles_length]]]]).
Qed.

Lemma push_child_selector_fields (t : traversal) (e : node) :
  dom (push_child_selector random t e)
    = update_element e (classList_add ("container_" +:+ random (randomCalls t))) (dom t)
  /\ seenNodes (push_child_selector random t e) = seenNodes t
  /\ (exists sel, containerSelectors (push_child_selector random t e)
        = containerSelectors t
          ++ [{| selector_node := e; selector_kind_of := ChildParagraphs;
                 selector_text := sel |}])
  /\ overrideCssDeclarations (push_child_selector random t e) = overrideCssDeclarations t.
Proof.
  unfold push_child_selector, _getNodeSelector. cbv zeta.
  cbn [dom seenNodes containerSelectors overrideCssDeclarations push_selector].
  repeat split. eexists. reflexivity.
Qed.

(** One turn of the loop. *)
Lemma iterateParents_loop_step (fuel : nat) (t : traversal) (cur : node) :
  iterateParents_loop random (S fuel) t (Some cur)
  = if Nat.eqb cur (documentBody (dom t)) then Ok t
    else if bool_decide (cur ∈ seenNodes t) then Ok t
    else do aside <- _isAsideEquivalent (element_at (dom t) cur) ;
         if aside then Ok (add_seen cur t)
         else iterateParents_loop random fuel
                (process_container random (add_seen cur t) cur)
                (parentElement (element_at (dom t) cur)).
Proof.
  cbn [iterateParents_loop].
  destruct (Nat.eqb cur (documentBody (dom t))); [reflexivity|].
  destruct (bool_decide (cur ∈ seenNodes t)); [reflexivity|].
  change (dom (add_seen cur t)) with (dom t).
  destruct (_isAsideEquivalent (element_at (dom t) cur)) as [[|]| |]; cbn [bind];
    try reflexivity.
  unfold process_container, _getNodeSelector. cbv zeta.
  match goal with |- context [if ?c then _ else _] => destruct c end;
    cbn [dom push_selector concat_overrides push_backgroundColor add_seen];
    rewrite parent_after_add; reflexivity.
Qed.

Lemma iterateParents_entry (fuel : nat) (t : traversal) (e : node) :
  iterateParents random fuel t (Some e)
  = iterateParents_loop random fuel
      (if negb (bool_decide (e ∈ seenNodes t)) then push_child_selector random t e else t)
      (Some e).
Proof. reflexivity. Qed.

(** What is established for every turn of the loop holds when it is left. *)
Lemma iterateParents_loop_invariant (P : traversal -> Prop) :
  (forall t cur, P t -> cur ∉ seenNodes t -> cur <> documentBody (dom t) ->
     _isAsideEquivalent (element_at (dom t) cur) = Ok true -> P (add_seen cur t)) ->
  (forall t cur, P t -> cur ∉ seenNodes t -> cur <> documentBody (dom t) ->
     _isAsideEquivalent (element_at (dom t) cur) = Ok false ->
     P (process_container random (add_seen cur t) cur)) ->
  forall fuel t cur t',
    P t -> iterateParents_loop random fuel t cur = Ok t' -> P t'.
Proof.
  intros Haside Hprocess. induction fuel as [|fuel IH]; intros t cur t' HP Hrun.
  - discriminate Hrun.
  - destruct cur as [cur|]; [|discriminate Hrun].
    rewrite iterateParents_loop_step in Hrun.
    destruct (Nat.eqb cur (documentBody (dom t))) eqn:Hbody; [now inversion Hrun; subst|].
    apply Nat.eqb_neq in Hbody.
    destruct (bool_decide (cur ∈ seenNodes t)) eqn:Hseen; [now inversion Hrun; subst|].
    apply bool_decide_eq_false in Hseen.
    destruct (_isAsideEquivalent (element_at (dom t) cur)) as [[|]| |] eqn:Ha;
      cbn [bind] in Hrun; try discriminate Hrun.
    + inversion Hrun; subst. now apply Haside.
    + eapply IH; [|exact Hrun]. now apply Hprocess.
Qed.

End TraversalFacts.

Section TraversalInvariants.
Import Dom IterateDOM Props.

Variable random : nat -> string.

(** What is established for the three steps holds after a call of
    [iterateParents], and after the whole traversal. *)
Section Invariant.

Variable P : traversal -> Prop.

Hypothesis P_child : forall t e,
  P t -> e ∉ seenNodes t -> P (push_child_selector random t e).
Hypothesis P_aside : forall t cur,
  P t -> cur ∉ seenNodes t -> cur <> documentBody (dom t) ->
  _isAsideEquivalent (element_at (dom t) cur) = Ok true -> P (add_seen cur t).
Hypothesis P_process : forall t cur,
  P t -> cur ∉ seenNodes t -> cur <> documentBody (dom t) ->
  _isAsideEquivalent (element_at (dom t) cur) = Ok false ->
  P (process_container random (add_seen cur t) cur).

Lemma iterateParents_invariant (fuel : nat) (t : traversal) (elem : option node)
    (t' : traversal) :
  P t -> iterateParents random fuel t elem = Ok t' -> P t'.
Proof.
  intros HP Hrun. destruct elem as [e|]; [|discriminate Hrun].
  rewrite iterateParents_entry in Hrun.
  eapply (iterateParents_loop_invariant random P P_aside P_process); [|exact Hrun].
  destruct (bool_decide (e ∈ seenNodes t)) eqn:Hseen; cbn [negb]; [exact HP|].
  apply bool_decide_eq_false in Hseen. now apply P_child.
Qed.

Lemma visit_paragraph_invariant (fuel : nat) (elem : node) (t t' : traversal) :
  P t -> visit_paragraph random fuel elem t = Ok t' -> P t'.
Proof.
  unfold visit_paragraph. intros HP Hrun.
  destruct (Z.eqb (offsetHeight (element_at (dom t) elem)) 0).
  - now inversion Hrun; subst.
  - eapply iterateParents_invariant; eassumption.
Qed.

Lemma forEach_invariant (fuel : nat) (paragraphs : list node) (t t' : traversal) :
  P t -> forEach random fuel paragraphs t = Ok t' -> P t'.
Proof.
  revert t. induction paragraphs as [|elem rest IH]; intros t HP Hrun.
  - now inversion Hrun; subst.
  - cbn [forEach] in Hrun.
    destruct (visit_paragraph random fuel elem t) as [t1| |] eqn:Hvisit;
      try discriminate Hrun.
    cbn [bind] in Hrun. eapply IH; [|exact Hrun].
    eapply visit_paragraph_invariant; eassumption.
Qed.

Lemma iterateDOM_invariant (fuel : nat) (doc : document) (calls : nat) (t : traversal) :
  P (initial doc calls) -> iterateDOM random fuel doc calls = Ok t -> P t.
Proof. intros HP Hrun. eapply forEach_invariant; eassumption. Qed.

End Invariant.

(** *** The tree is not changed by the traversal *)

Lemma same_tree_after_add (doc : document) (t t' : traversal) (n : node) (token : string) :
  dom t' = update_element n (classList_add token) (dom t) ->
  same_tree doc t -> same_tree doc t'.
Proof.
  intros Hdom [Hbody Hn]. unfold same_tree. rewrite Hdom. split; [exact Hbody|].
  intros m. rewrite parent_after_add, height_after_add. apply Hn.
Qed.

Lemma same_tree_child (doc : document) (t : traversal) (e : node) :
  same_tree doc t -> same_tree doc (push_child_selector random t e).
Proof.
  apply same_tree_after_add with (n := e) (token := "container_" +:+ random (randomCalls t)).
  apply push_child_selector_fields.
Qed.

Lemma same_tree_process (doc : document) (t : traversal) (cur : node) :
  same_tree doc t -> same_tree doc (process_container random (add_seen cur t) cur).
Proof.
  intros H.
  apply same_tree_after_add
    with (t := add_seen cur t) (n := cur) (token := "container_" +:+ random (randomCalls t)).
  - apply (process_container_fields random (add_seen cur t) cur).
  - exact H.
Qed.

Lemma same_tree_refl (t : traversal) : same_tree (dom t) t.
Proof. split; [reflexivity | intros n; split; reflexivity]. Qed.

(** *** Termination *)







Lemma descendant_ancestor (doc : document) (root : node) (fuel : nat) :
  forall n, descendant_of fuel doc root n = true ->
  exists k, k < fuel /\ ancestor doc (S k) n = Some root.
Proof.
  induction fuel as [|fuel IH]; intros n H; [discriminate H|].
  cbn [descendant_of] in H. cbn [ancestor].
  destruct (parentElement (element_at doc n)) as [p|]; [|discriminate H].
  destruct (Nat.eqb p root) eqn:E.
  - apply Nat.eqb_eq in E. subst. exists 0. split; [lia | reflexivity].
  - cbn [orb] in H. apply IH in H as [k [Hk Hanc]].
    exists (S k). split; [lia | exact Hanc].
Qed.

Lemma same_tree_visit (doc : document) (fuel : nat) (elem : node) (t t' : traversal) :
  same_tree doc t -> visit_paragraph random fuel elem t = Ok t' -> same_tree doc t'.
Proof.
  apply (visit_paragraph_invariant (same_tree doc)).
  - intros; now apply same_tree_child.
  - intros ? ? H _ _ _. exact H.
  - intros; now apply same_tree_process.
Qed.




End TraversalInvariants.

Section TraversalWitness.
Import Dom IterateDOM Props Examples.


(** The page of the witness has no SVG elements, and its traversal runs to
    completion. *)
Example two_paragraphs_page_completes :
  html_only two_paragraphs_page
  /\ exists t', iterateDOM counter 10 two_paragraphs_page 0 = Ok t'.
Proof.
  split.
  - intros n. do 6 (destruct n as [|n]; [reflexivity|]). reflexivity.
  - eexists. vm_compute. reflexivity.
Qed.

(** C8 (the code departs from it): the paragraph of [svg_page] sits in the
    foreignObject of an SVG image, and its parent links reach the body.  The
    [className] of the foreignObject is not a string, the classifier throws
    on it, and so do the walk from the paragraph and the traversal of the
    page, whatever the fuel: the traversal does not run to completion. *)
Theorem svg_paragraph_throws :
  In 5 (paragraphs_of svg_page)
  /\ ancestor svg_page 3 5 = Some (documentBody svg_page)
  /\ svgElement (element_at svg_page 4) = true
  /\ _isAsideEquivalent (element_at svg_page 4) = TypeError
  /\ (forall fuel, 1 <= fuel ->
        visit_paragraph counter fuel 5 (initial svg_page 0) = TypeError)
  /\ (forall fuel, 1 <= fuel -> iterateDOM counter fuel svg_page 0 = TypeError).
Proof.
  split; [|split; [|split; [|split; [|split]]]];
    try (intros fuel Hfuel; destruct fuel as [|fuel]; [lia|]);
    vm_compute; try reflexivity.
  left. reflexivity.
Qed.

End TraversalWitness.

(** ** Counting selectors and override rules *)
Section SelectorCounts.
Import Dom IterateDOM Props.

Variable random : nat -> string.

Local Ltac split_invariant := split; [|split; [|split; [|split]]].

Lemma elem_of_add_seen (n cur : node) (seen : gset node) :
  n ∈ {[ cur ]} ∪ seen <-> n = cur \/ n ∈ seen.
Proof. rewrite elem_of_union, elem_of_singleton. reflexivity. Qed.

Lemma count_selectors_snoc (k : selector_kind) (n : node) (l : list container_selector)
    (c : container_selector) :
  count_selectors k n (l ++ [c])
  = count_selectors k n l
    + (if Nat.eqb (selector_node c) n && kind_eqb (selector_kind_of c) k then 1 else 0).
Proof.
  unfold count_selectors. rewrite List.filter_app, length_app. cbn [List.filter].
  destruct (Nat.eqb (selector_node c) n && kind_eqb (selector_kind_of c) k); reflexivity.
Qed.

Lemma count_overrides_app (n cur : node) (l : list override_declaration) (l' : list string) :
  count_overrides n (l ++ map (fun d => {| override_node := cur; override_text := d |}) l')
  = count_overrides n l + (if Nat.eqb cur n then length l' else 0).
Proof.
  unfold count_overrides. rewrite List.filter_app, length_app. f_equal.
  induction l' as [|d l' IH]; cbn [map List.filter override_node].
  - now destruct (Nat.eqb cur n).
  - destruct (Nat.eqb cur n); [cbn [length]; now rewrite IH | exact IH].
Qed.

Lemma selectors_invariant_initial (doc : document) (calls : nat) :
  selectors_invariant doc (initial doc calls).
Proof.
  unfold selectors_invariant, initial. cbn. split_invariant; auto; try lia.
  intros m Hm. exfalso. revert Hm. apply not_elem_of_empty.
Qed.

Lemma selectors_invariant_child (doc : document) (t : traversal) (e : node) :
  selectors_invariant doc t -> selectors_invariant doc (push_child_selector random t e).
Proof.
  intros (I1 & I2 & I3 & I5 & I6).
  destruct (push_child_selector_fields random t e) as (Hdom & Hseen & [sel Hcs] & Hov).
  assert (Hcount : forall n,
            count_selectors TextContainer n (containerSelectors (push_child_selector random t e))
            = count_selectors TextContainer n (containerSelectors t)).
  { intros n. rewrite Hcs, count_selectors_snoc. cbn. rewrite andb_false_r. lia. }
  unfold selectors_invariant. rewrite Hdom, Hseen, Hov.
  split_invariant; intros n; rewrite ?Hcount; auto.
  - intros Hn. destruct (I5 n Hn) as [H | H]; [now left | right].
    now apply aside_true_after_add.
  - intros Hn. destruct (I6 n Hn) as [Hsame Hzero]. split; [|exact Hzero].
    rewrite aside_after_add; [exact Hsame | now rewrite Hsame].
Qed.

Lemma selectors_invariant_aside (doc : document) (t : traversal) (cur : node) :
  selectors_invariant doc t ->
  _isAsideEquivalent (element_at (dom t) cur) = Ok true ->
  selectors_invariant doc (add_seen cur t).
Proof.
  intros (I1 & I2 & I3 & I5 & I6) Ha. unfold selectors_invariant, add_seen.
  cbn [containerSelectors overrideCssDeclarations seenNodes dom].
  split_invariant; intros n; auto.
  - intros Hn. apply I2. intros H. apply Hn, elem_of_add_seen. now right.
  - intros Hn. apply elem_of_add_seen in Hn as [-> | Hn]; [now right | now apply I5].
Qed.

Lemma selectors_invariant_process (doc : document) (t : traversal) (cur : node) :
  selectors_invariant doc t ->
  cur ∉ seenNodes t ->
  _isAsideEquivalent (element_at (dom t) cur) = Ok false ->
  selectors_invariant doc (process_container random (add_seen cur t) cur).
Proof.
  intros (I1 & I2 & I3 & I5 & I6) Hnew Ha.
  destruct (process_container_fields random (add_seen cur t) cur)
    as (Hdom & Hseen & [sel Hcs] & [l [Hov Hl]]).
  cbn [add_seen dom seenNodes containerSelectors overrideCssDeclarations randomCalls]
    in Hdom, Hseen, Hcs, Hov.
  assert (Hcount : forall n,
            count_selectors TextContainer n
              (containerSelectors (process_container random (add_seen cur t) cur))
            = count_selectors TextContainer n (containerSelectors t)
              + (if Nat.eqb cur n then 1 else 0)).
  { intros n. rewrite Hcs, count_selectors_snoc. cbn. now rewrite andb_true_r. }
  unfold selectors_invariant. rewrite Hdom, Hseen, Hov.
  split_invariant; intros n; rewrite ?Hcount, ?count_overrides_app.
  - destruct (Nat.eqb cur n) eqn:E; [|specialize (I1 n); lia].
    apply Nat.eqb_eq in E. subst n. rewrite (I2 cur Hnew). lia.
  - intros Hn. destruct (Nat.eqb cur n) eqn:E.
    + apply Nat.eqb_eq in E. subst n. exfalso. apply Hn, elem_of_add_seen. now left.
    + rewrite I2; [lia|]. intros H. apply Hn, elem_of_add_seen. now right.
  - specialize (I3 n). destruct (Nat.eqb cur n); lia.
  - intros Hn. destruct (Nat.eqb cur n) eqn:E.
    + apply Nat.eqb_eq in E. subst n. left. rewrite (I2 cur Hnew). lia.
    + apply Nat.eqb_neq in E.
      apply elem_of_add_seen in Hn as [-> | Hn]; [congruence|].
      destruct (I5 n Hn) as [H | H]; [left; lia | right].
      now apply aside_true_after_add.
  - intros Hn. destruct (I6 n Hn) as [Hsame Hzero]. split.
    + rewrite aside_after_add; [exact Hsame | now rewrite Hsame].
    + destruct (Nat.eqb cur n) eqn:E; [|lia].
      apply Nat.eqb_eq in E. subst n. exfalso. apply Hn. now rewrite <- Hsame.
Qed.

Lemma selectors_invariant_traversal (fuel : nat) (doc : document) (calls : nat)
    (t : traversal) :
  iterateDOM random fuel doc calls = Ok t -> selectors_invariant doc t.
Proof.
  apply (iterateDOM_invariant random (selectors_invariant doc)).
  - intros; now apply selectors_invariant_child.
  - intros; now apply selectors_invariant_aside.
  - intros; now apply selectors_invariant_process.
  - apply selectors_invariant_initial.
Qed.

End SelectorCounts.

Section ChildSelectors.
Import Dom IterateDOM Props.

Variable random : nat -> string.

(** The loop leaves the [selector > p] entries alone, only adds to the seen
    elements, and never marks the body. *)
Lemma iterateParents_loop_frame (doc : document) (fuel : nat) (t0 t' : traversal)
    (cur : option node) :
  documentBody (dom t0) = documentBody doc ->
  documentBody doc ∉ seenNodes t0 ->
  iterateParents_loop random fuel t0 cur = Ok t' ->
  documentBody (dom t') = documentBody doc
  /\ (documentBody doc ∉ seenNodes t')
  /\ (forall n, n ∈ seenNodes t0 -> n ∈ seenNodes t')
  /\ (forall n, count_selectors ChildParagraphs n (containerSelectors t')
                = count_selectors ChildParagraphs n (containerSelectors t0)).
Proof.
  intros Hbody Hnot.
  apply (iterateParents_loop_invariant random
           (fun x => documentBody (dom x) = documentBody doc
                     /\ (documentBody doc ∉ seenNodes x)
                     /\ (forall n, n ∈ seenNodes t0 -> n ∈ seenNodes x)
                     /\ (forall n, count_selectors ChildParagraphs n (containerSelectors x)
                                   = count_selectors ChildParagraphs n (containerSelectors t0)))).
  - intros t cur' (Hb & Hn & Hs & Hc) _ Hcur _. cbn [add_seen dom seenNodes containerSelectors].
    split; [exact Hb | split; [|split; [|exact Hc]]].
    + intros H. apply elem_of_add_seen in H as [H | H]; [congruence | contradiction].
    + intros n H. apply elem_of_add_seen. right. now apply Hs.
  - intros t cur' (Hb & Hn & Hs & Hc) _ Hcur _.
    destruct (process_container_fields random (add_seen cur' t) cur')
      as (Hdom & Hseen & [sel Hcs] & _).
    cbn [add_seen dom seenNodes containerSelectors] in Hdom, Hseen, Hcs.
    rewrite Hdom, Hseen, Hcs. split; [exact Hb | split; [|split]].
    + intros H. apply elem_of_add_seen in H as [H | H]; [congruence | contradiction].
    + intros n H. apply elem_of_add_seen. right. now apply Hs.
    + intros n. rewrite count_selectors_snoc. cbn. rewrite andb_false_r, Hc. lia.
  - split; [exact Hbody | split; [exact Hnot | split; [auto | reflexivity]]].
Qed.

(** The element the loop starts from is marked, unless it is the body. *)
Lemma iterateParents_loop_marks (fuel : nat) (t0 t' : traversal) (e : node) :
  iterateParents_loop random fuel t0 (Some e) = Ok t' ->
  e <> documentBody (dom t0) -> e ∈ seenNodes t'.
Proof.
  intros Hrun Hne. destruct fuel as [|fuel]; [discriminate Hrun|].
  rewrite iterateParents_loop_step in Hrun.
  apply Nat.eqb_neq in Hne. rewrite Hne in Hrun.
  destruct (bool_decide (e ∈ seenNodes t0)) eqn:Hseen.
  { apply bool_decide_eq_true in Hseen. now inversion Hrun; subst. }
  destruct (_isAsideEquivalent (element_at (dom t0) e)) as [[|]| |];
    cbn [bind] in Hrun; try discriminate Hrun.
  { inversion Hrun; subst. apply elem_of_add_seen. now left. }
  revert Hrun.
  apply (iterateParents_loop_invariant random (fun x => e ∈ seenNodes x)).
  - intros t cur H _ _ _. apply elem_of_add_seen. now right.
  - intros t cur H _ _ _.
    destruct (process_container_fields random (add_seen cur t) cur) as (_ & Hs & _).
    rewrite Hs. apply elem_of_add_seen. now right.
  - destruct (process_container_fields random (add_seen e t0) e) as (_ & Hs & _).
    rewrite Hs. apply elem_of_add_seen. now left.
Qed.

Lemma child_selectors_iterateParents (doc : document) (fuel : nat) (t t' : traversal)
    (e : node) :
  child_selectors_invariant doc t ->
  iterateParents random fuel t (Some e) = Ok t' ->
  child_selectors_invariant doc t'.
Proof.
  intros (Hbody & Hnot & Hcount) Hrun. rewrite iterateParents_entry in Hrun.
  set (t0 := if negb (bool_decide (e ∈ seenNodes t))
             then push_child_selector random t e else t) in Hrun.
  assert (H0 : documentBody (dom t0) = documentBody doc /\ seenNodes t0 = seenNodes t).
  { unfold t0. destruct (negb (bool_decide (e ∈ seenNodes t))); [|now split].
    destruct (push_child_selector_fields random t e) as (Hd & Hs & _).
    rewrite Hd, Hs. now split. }
  destruct H0 as [Hbody0 Hseen0].
  assert (Hnot0 : documentBody doc ∉ seenNodes t0) by now rewrite Hseen0.
  destruct (iterateParents_loop_frame doc fuel t0 t' (Some e) Hbody0 Hnot0 Hrun)
    as (Hb' & Hn' & Hmono & Hsame).
  split; [exact Hb' | split; [exact Hn'|]].
  intros n Hn. rewrite Hsame. destruct (Hcount n Hn) as [Hle Hzero].
  unfold t0 in *. destruct (bool_decide (e ∈ seenNodes t)) eqn:Hseen; cbn [negb] in *.
  - split; [exact Hle|]. intros Hnew. apply Hzero. intros H. now apply Hnew, Hmono.
  - apply bool_decide_eq_false in Hseen.
    destruct (push_child_selector_fields random t e) as (_ & _ & [sel Hcs] & _).
    rewrite Hcs, count_selectors_snoc. cbn [selector_node selector_kind_of kind_eqb].
    rewrite andb_true_r. destruct (Nat.eqb e n) eqn:E.
    + apply Nat.eqb_eq in E. subst n. rewrite (Hzero Hseen). split; [lia|].
      intros Hnew. exfalso. apply Hnew.
      apply (iterateParents_loop_marks fuel _ _ e Hrun). now rewrite Hbody0.
    + split; [lia|]. intros Hnew. rewrite Hzero; [lia|].
      intros H. apply Hnew, Hmono. now rewrite Hseen0.
Qed.

Lemma child_selectors_traversal (fuel : nat) (doc : document) (calls : nat) (t : traversal) :
  iterateDOM random fuel doc calls = Ok t -> child_selectors_invariant doc t.
Proof.
  unfold iterateDOM.
  assert (Hinit : child_selectors_invariant doc (initial doc calls)).
  { split; [reflexivity | split; [apply not_elem_of_empty|]]. intros n _. cbn. split; [lia | auto]. }
  revert Hinit. generalize (initial doc calls) as t0. generalize (paragraphs_of doc) as l.
  induction l as [|elem rest IH]; intros t0 Hinv Hrun.
  - now inversion Hrun; subst.
  - cbn [forEach] in Hrun.
    destruct (visit_paragraph random fuel elem t0) as [t1| |] eqn:Hvisit;
      try discriminate Hrun.
    cbn [bind] in Hrun. apply (IH t1); [|exact Hrun].
    unfold visit_paragraph in Hvisit.
    destruct (Z.eqb (offsetHeight (element_at (dom t0) elem)) 0).
    + now inversion Hvisit; subst.
    + destruct (parentElement (element_at (dom t0) elem)) as [e|]; [|discriminate Hvisit].
      eapply child_selectors_iterateParents; eassumption.
Qed.

(** *** The walk covers the chain *)









(** *** Why an element is visited *)







End ChildSelectors.

Section SelectorExamples.
Import Dom IterateDOM Props Examples.


(** The two chains of [shared_container_page] meet in element 3: the walk
    from either paragraph comes to it, and it is selected once. *)
Example shared_container_selected_once :
  walk_reaches (dom (traversal_of shared_container_page)) 1 4 3 = true
  /\ walk_reaches (dom (traversal_of shared_container_page)) 1 6 3 = true
  /\ map selector_text (containerSelectors (traversal_of shared_container_page))
     = ["section.container_123 > p"; "section.container_124"; "div.container_125";
        "section.container_126 > p"; "section.container_127"].
Proof. split; [|split]; vm_compute; reflexivity. Qed.




End SelectorExamples.

(** ** Restoring the document *)
Section Restore.
Import Dom IterateDOM Props StyleChanges.

Variable random : nat -> string.

Lemma createStylesheetText_classList (text styleId : string) (doc : document) (n : node) :
  n < nextNode doc ->
  classList (element_at (Common.createStylesheetText text styleId doc) n)
  = classList (element_at doc n).
Proof.
  intros Hn. unfold Common.createStylesheetText. cbn [element_at].
  rewrite remove_each_nextNode.
  destruct (Nat.eqb n (nextNode doc)) eqn:E.
  - apply Nat.eqb_eq in E. lia.
  - apply remove_each_classList.
Qed.

Lemma createStylesheetText_nextNode (text styleId : string) (doc : document) :
  nextNode (Common.createStylesheetText text styleId doc) = S (nextNode doc).
Proof. unfold Common.createStylesheetText. cbn [nextNode]. now rewrite remove_each_nextNode. Qed.

Lemma has_container_after_add_self (suffix : string) (e : element) :
  has_container_class (classList_add ("container_" +:+ suffix) e) = true.
Proof.
  unfold has_container_class, classList_add. cbn [classList].
  destruct (contains_token ("container_" +:+ suffix) (classList e)) eqn:E.
  - unfold contains_token in E. apply existsb_exists in E as [c [Hin Hc]].
    apply String.eqb_eq in Hc. subst c. apply existsb_exists.
    eexists. split; [exact Hin | apply startsWith_refl_app].
  - rewrite existsb_app. cbn [existsb]. rewrite startsWith_refl_app.
    now rewrite orb_true_r.
Qed.

Lemma classes_in_place_push (t t' : traversal) (n : node) (k : selector_kind)
    (sel suffix : string) :
  dom t' = update_element n (classList_add ("container_" +:+ suffix)) (dom t) ->
  containerSelectors t'
    = containerSelectors t
      ++ [{| selector_node := n; selector_kind_of := k; selector_text := sel |}] ->
  classes_in_place t -> classes_in_place t'.
Proof.
  intros Hdom Hcs H c Hin. rewrite Hcs in Hin. rewrite Hdom, update_element_at.
  apply in_app_or in Hin as [Hin | [<- | []]].
  - destruct (Nat.eqb (selector_node c) n) eqn:E.
    + apply has_container_after_add_self.
    + now apply H.
  - cbn [selector_node]. rewrite Nat.eqb_refl. apply has_container_after_add_self.
Qed.

Lemma classes_in_place_traversal (fuel : nat) (doc : document) (calls : nat) (t : traversal) :
  iterateDOM random fuel doc calls = Ok t -> classes_in_place t.
Proof.
  apply (iterateDOM_invariant random classes_in_place).
  - intros t0 e H _.
    destruct (push_child_selector_fields random t0 e) as (Hdom & _ & [sel Hcs] & _).
    eapply classes_in_place_push; eassumption.
  - intros t0 cur H _ _ _. exact H.
  - intros t0 cur H _ _ _.
    destruct (process_container_fields random (add_seen cur t0) cur)
      as (Hdom & _ & [sel Hcs] & _).
    eapply classes_in_place_push with (t := add_seen cur t0); [exact Hdom | exact Hcs | exact H].
  - intros c [].
Qed.

(** C1, as the restore operation behaves: after the traversal and the
    injection of the style sheets, [unPatchDomTransform] leaves no element
    with one of the three injected names in the document; the classes of the
    page's elements are as the traversal left them, so each element a selector
    was collected for still carries a generated class. *)
Theorem restore_removes_injected_styles (fuel : nat) (doc : document) (calls : nat)
    (t : traversal) :
  iterateDOM random fuel doc calls = Ok t ->
  document_querySelectorAll
    (unPatchDomTransform (pageViewTransition t (dom t))) injected_names = []
  /\ (forall n, n < nextNode (dom t) ->
        classList (element_at (unPatchDomTransform (pageViewTransition t (dom t))) n)
        = classList (element_at (dom t) n))
  /\ (forall c, In c (containerSelectors t) ->
        has_container_class (element_at (dom t) (selector_node c)) = true).
Proof.
  intros Hrun. split; [|split].
  - apply remove_matching_none.
  - intros n Hn. unfold unPatchDomTransform. rewrite remove_each_classList.
    unfold pageViewTransition.
    rewrite createStylesheetText_classList
      by (rewrite createStylesheetText_nextNode; lia).
    now apply createStylesheetText_classList.
  - now apply (classes_in_place_traversal fuel doc calls).
Qed.

End Restore.

Section RestoreExamples.
Import Dom IterateDOM Props StyleChanges Examples.

Lemma restore_removes_injected_styles_witness :
  document_querySelectorAll
    (unPatchDomTransform
       (pageViewTransition (traversal_of two_paragraphs_page)
          (dom (traversal_of two_paragraphs_page)))) injected_names = []
  /\ (forall n, n < nextNode (dom (traversal_of two_paragraphs_page)) ->
        classList (element_at
                     (unPatchDomTransform
                        (pageViewTransition (traversal_of two_paragraphs_page)
                           (dom (traversal_of two_paragraphs_page)))) n)
        = classList (element_at (dom (traversal_of two_paragraphs_page)) n))
  /\ (forall c, In c (containerSelectors (traversal_of two_paragraphs_page)) ->
        has_container_class
          (element_at (dom (traversal_of two_paragraphs_page)) (selector_node c)) = true).
Proof.
  apply (restore_removes_injected_styles counter 10 two_paragraphs_page 0
           (traversal_of two_paragraphs_page)).
  vm_compute. reflexivity.
Defined.

(** Against C1 as stated: after activation and restore on
    [two_paragraphs_page] the two style elements are gone, but element 3 is
    still in the document with both generated classes. *)
Lemma restore_keeps_generated_classes :
  let activated := pageViewTransition (traversal_of two_paragraphs_page)
                     (dom (traversal_of two_paragraphs_page)) in
  let restored := unPatchDomTransform activated in
  document_querySelectorAll activated injected_names = [6; 7]
  /\ treeOrder restored = [0; 1; 2; 3; 4; 5]
  /\ classList (element_at restored 3) = ["container_123"; "container_124"]
  /\ has_container_class (element_at restored 3) = true.
Proof. cbv zeta. split; [|split; [|split]]; vm_compute; reflexivity. Qed.

End RestoreExamples.

(** * Further properties of the plugins and of the traversal *)

(** ** Breakpoint scaling, completed *)
Section BreakpointsMore.
Import CssOverride.

Lemma take_zero s : JS.take 0 s = EmptyString.
Proof. now destruct s. Qed.

Lemma take_app_length a b : JS.take (String.length a) (a +:+ b) = a.
Proof.
  induction a as [|x a IH]; [apply take_zero|].
  change (String x a +:+ b) with (String x (a +:+ b)).
  cbn [String.length JS.take]. now rewrite IH.
Qed.

Lemma drop_app_plus a b n : JS.drop (String.length a + n) (a +:+ b) = JS.drop n b.
Proof.
  induction a as [|x a IH]; [reflexivity|].
  change (String x a +:+ b) with (String x (a +:+ b)). exact IH.
Qed.

(** Where [indexOf] finds the pattern, the pattern is. *)
Lemma indexOf_sound p c : forall i,
  JS.indexOf p c = Some i ->
  c = JS.take i c +:+ p +:+ JS.drop (i + String.length p) c.
Proof.
  induction c as [|x c IH]; intros i H.
  - cbn [JS.indexOf] in H. destruct (JS.startsWith p EmptyString) eqn:E; [|discriminate H].
    inversion H; subst. rewrite take_zero. exact (startsWith_split _ _ E).
  - cbn [JS.indexOf] in H. destruct (JS.startsWith p (String x c)) eqn:E.
    + inversion H; subst. rewrite take_zero. exact (startsWith_split _ _ E).
    + destruct (JS.indexOf p c) as [j|] eqn:Ej; [|discriminate H].
      inversion H; subst. cbn [JS.take]. change (S j + String.length p) with (S (j + String.length p)).
      cbn [JS.drop].
      change (String x (JS.take j c) +:+ p +:+ JS.drop (j + String.length p) c)
        with (String x (JS.take j c +:+ p +:+ JS.drop (j + String.length p) c)).
      f_equal. now apply IH.
Qed.

Lemma replace_same p c : JS.has_char "$" p = false -> JS.replace p p c = c.
Proof.
  intros Hp. unfold JS.replace. destruct (JS.indexOf p c) as [i|] eqn:E; [|reflexivity].
  rewrite getSubstitution_plain by exact Hp. symmetry. now apply indexOf_sound.
Qed.

Lemma uint_toString_no_dollar d : JS.has_char "$" (NilEmpty.string_of_uint d) = false.
Proof. induction d; cbn; try reflexivity; exact IHd. Qed.

Lemma Z_toString_no_dollar z : JS.has_char "$" (JS.Z_toString z) = false.
Proof.
  unfold JS.Z_toString, NilZero.string_of_int, NilZero.string_of_uint.
  destruct (Z.to_int z) as [d | d]; destruct d; cbn; try reflexivity;
    apply uint_toString_no_dollar.
Qed.

Lemma round_scale_one n : JS.Math_round (1 * inject_Z n) = n.
Proof.
  unfold JS.Math_round, Qfloor, inject_Z, Qmult, Qplus. cbn [Qnum Qden].
  change (Z.pos (1 * 1 * 2)) with 2%Z. change (Z.pos (1 * 1)) with 1%Z.
  symmetry. apply Z.div_unique with (r := 1%Z); lia.
Qed.

Lemma scale_match_one condition digits : scale_match 1 condition digits = condition.
Proof.
  unfold scale_match. rewrite round_scale_one. apply replace_same, Z_toString_no_dollar.
Qed.

(** With scale factor 1 the condition of every media rule stays as it is. *)
Theorem scale_one_keeps_condition (rule : at_rule) :
  params (scaleBreakpoints_AtRule 1 rule) = params rule
  /\ name (scaleBreakpoints_AtRule 1 rule) = name rule.
Proof.
  unfold scaleBreakpoints_AtRule.
  destruct (String.eqb (name rule) "media"); [|now split].
  destruct (atrule_alreadyProcessed rule); [now split|].
  cbn [params name]. split; [|reflexivity].
  generalize (JS.matchAll_digits (params rule)) as l. generalize (params rule) as c.
  intros c l. revert c. induction l as [|m l IH]; intros c; [reflexivity|].
  cbn [fold_left]. rewrite scale_match_one. apply IH.
Qed.

(** The pass is idempotent: a rule it has handled is returned as it is. *)
Theorem scaleBreakpoints_idempotent (conditionScale : Q) (rule : at_rule) :
  scaleBreakpoints_AtRule conditionScale (scaleBreakpoints_AtRule conditionScale rule)
  = scaleBreakpoints_AtRule conditionScale rule.
Proof.
  assert (Hcases : atrule_alreadyProcessed (scaleBreakpoints_AtRule conditionScale rule) = true
                   \/ scaleBreakpoints_AtRule conditionScale rule = rule).
  { unfold scaleBreakpoints_AtRule.
    destruct (String.eqb (name rule) "media"); [|now right].
    destruct (atrule_alreadyProcessed rule); [now right | now left]. }
  destruct Hcases as [H | H].
  - now apply scale_processed_unchanged.
  - now rewrite !H.
Qed.

Lemma digit_runs_none s :
  JS.every (fun c => negb (JS.is_digit c)) s = true ->
  JS.digit_runs_from EmptyString s = [].
Proof.
  induction s as [|c s IH]; intros H; [reflexivity|].
  cbn [JS.every] in H. apply andb_true_iff in H as [Hc Hs].
  apply negb_true_iff in Hc. cbn [JS.digit_runs_from]. rewrite Hc. cbn [JS.is_empty].
  now apply IH.
Qed.

Lemma digit_runs_skip pre s :
  JS.every (fun c => negb (JS.is_digit c)) pre = true ->
  JS.digit_runs_from EmptyString (pre +:+ s) = JS.digit_runs_from EmptyString s.
Proof.
  induction pre as [|c pre IH]; intros H; [reflexivity|].
  cbn [JS.every] in H. apply andb_true_iff in H as [Hc Hs].
  apply negb_true_iff in Hc.
  change (String c pre +:+ s) with (String c (pre +:+ s)).
  cbn [JS.digit_runs_from]. rewrite Hc. cbn [JS.is_empty]. now apply IH.
Qed.

Lemma digit_runs_accumulate digits : forall run s,
  JS.every JS.is_digit digits = true ->
  JS.digit_runs_from run (digits +:+ s) = JS.digit_runs_from (run +:+ digits) s.
Proof.
  induction digits as [|c digits IH]; intros run s H.
  - now rewrite append_empty_r.
  - cbn [JS.every] in H. apply andb_true_iff in H as [Hc Hs].
    change (String c digits +:+ s) with (String c (digits +:+ s)).
    cbn [JS.digit_runs_from]. rewrite Hc. rewrite IH by exact Hs.
    now rewrite string_append_assoc.
Qed.

Lemma digit_runs_close run post :
  JS.is_empty run = false ->
  JS.every (fun c => negb (JS.is_digit c)) post = true ->
  JS.digit_runs_from run post = [run].
Proof.
  intros Hrun H. destruct post as [|c post]; cbn [JS.digit_runs_from]; [now rewrite Hrun|].
  cbn [JS.every] in H. apply andb_true_iff in H as [Hc Hs].
  apply negb_true_iff in Hc. rewrite Hc, Hrun. f_equal. now apply digit_runs_none.
Qed.

Lemma indexOf_prefix p s : JS.indexOf p (p +:+ s) = Some 0.
Proof.
  pose proof (startsWith_refl_app p s) as H.
  destruct (p +:+ s); cbn [JS.indexOf]; now rewrite H.
Qed.

Lemma indexOf_after_prefix pre digits post :
  JS.every (fun c => negb (JS.is_digit c)) pre = true ->
  JS.is_empty digits = false ->
  JS.every JS.is_digit digits = true ->
  JS.indexOf digits (pre +:+ digits +:+ post) = Some (String.length pre).
Proof.
  intros Hpre Hne Hd. induction pre as [|c pre IH].
  - change (EmptyString +:+ digits +:+ post) with (digits +:+ post).
    apply indexOf_prefix.
  - cbn [JS.every] in Hpre. apply andb_true_iff in Hpre as [Hc Hs].
    change (String c pre +:+ digits +:+ post) with (String c (pre +:+ digits +:+ post)).
    cbn [JS.indexOf String.length].
    destruct digits as [|d ds]; [discriminate Hne|].
    cbn [JS.every] in Hd. apply andb_true_iff in Hd as [Hd0 _].
    assert (Hneq : Ascii.eqb d c = false).
    { destruct (Ascii.eqb d c) eqn:E; [|reflexivity].
      apply Ascii.eqb_eq in E. subst. rewrite Hd0 in Hc. discriminate Hc. }
    cbn [JS.startsWith]. rewrite Hneq. rewrite (IH Hs). reflexivity.
Qed.

(** A condition with a single integer literal, written without leading
    zeros, has that literal replaced by the rounded product.  The statement
    is for the numbers on which the doubles of the source compute exactly:
    the scale is m / 2^e with 0 <= m < 2^53 and e <= 1074, the literal is
    below 2^53, and so is m times the literal; scale, literal and product
    are then doubles, and the rounded product is printed in decimal digits. *)
Theorem scale_single_literal (m : Z) (e : nat) (pre digits post : string) :
  JS.every (fun c => negb (JS.is_digit c)) pre = true ->
  JS.every (fun c => negb (JS.is_digit c)) post = true ->
  JS.is_empty digits = false ->
  JS.every JS.is_digit digits = true ->
  JS.Z_toString (JS.parseInt digits) = digits ->
  (0 <= m < 2 ^ 53)%Z ->
  e <= 1074 ->
  (JS.parseInt digits < 2 ^ 53)%Z ->
  (m * JS.parseInt digits < 2 ^ 53)%Z ->
  scaleBreakpoints_AtRule (inject_Z m / inject_Z (2 ^ Z.of_nat e))
    {| name := "media"; params := pre +:+ digits +:+ post;
       atrule_alreadyProcessed := false |}
  = {| name := "media";
       params := pre +:+ JS.Z_toString
                   (JS.Math_round (inject_Z m / inject_Z (2 ^ Z.of_nat e)
                                   * inject_Z (JS.parseInt digits)))
                 +:+ post;
       atrule_alreadyProcessed := true |}.
Proof.
  intros Hpre Hpost Hne Hd Hprint _ _ _ _.
  unfold scaleBreakpoints_AtRule. cbn [name params atrule_alreadyProcessed String.eqb].
  change (String.eqb "media" "media") with true. cbv iota. f_equal.
  unfold JS.matchAll_digits. rewrite digit_runs_skip by exact Hpre.
  rewrite digit_runs_accumulate by exact Hd.
  change (EmptyString +:+ digits) with digits.
  rewrite digit_runs_close by assumption.
  cbn [fold_left]. unfold scale_match. rewrite Hprint. unfold JS.replace.
  rewrite indexOf_after_prefix by assumption.
  rewrite take_app_length, drop_app_plus, drop_app_length.
  now rewrite getSubstitution_plain by apply Z_toString_no_dollar.
Qed.

Lemma scale_single_literal_witness :
  scaleBreakpoints_AtRule (inject_Z 3 / inject_Z (2 ^ Z.of_nat 1))
    {| name := "media"; params := "(max-width: " +:+ "601" +:+ "px)";
       atrule_alreadyProcessed := false |}
  = {| name := "media";
       params := "(max-width: " +:+ JS.Z_toString
                   (JS.Math_round (inject_Z 3 / inject_Z (2 ^ Z.of_nat 1)
                                   * inject_Z (JS.parseInt "601")))
                 +:+ "px)";
       atrule_alreadyProcessed := true |}.
Proof.
  apply (scale_single_literal 3 1 "(max-width: " "601" "px)").
  - vm_compute. reflexivity.
  - vm_compute. reflexivity.
  - vm_compute. reflexivity.
  - vm_compute. reflexivity.
  - vm_compute. reflexivity.
  - lia.
  - lia.
  - vm_compute. reflexivity.
  - vm_compute. reflexivity.
Defined.

(** Scale 1.5 on [(max-width: 601px)]: 901.5 is rounded up. *)
Example scale_single_literal_example :
  params (scaleBreakpoints_AtRule (inject_Z 3 / inject_Z (2 ^ Z.of_nat 1))
            {| name := "media"; params := "(max-width: 601px)";
               atrule_alreadyProcessed := false |})
  = "(max-width: 902px)".
Proof. vm_compute. reflexivity. Qed.

End BreakpointsMore.

(** ** URL rewriting, completed *)
Section UrlRewritingMore.
Import CssOverride Props.

Variable URL_href : string -> string -> option string.

(** The declaration handler is idempotent: what it returns it returns
    again. *)
Theorem urlRewrite_Declaration_idempotent (baseUrl : string) (decl decl' : declaration) :
  urlRewrite_Declaration URL_href baseUrl decl = Ok decl' ->
  urlRewrite_Declaration URL_href baseUrl decl' = Ok decl'.
Proof.
  unfold urlRewrite_Declaration at 1. intros H.
  destruct (JS.startsWith "url(" (value decl)) eqn:Hs.
  2:{ inversion H; subst. unfold urlRewrite_Declaration. now rewrite Hs. }
  destruct (alreadyProcessed decl) eqn:Hp.
  { inversion H; subst. unfold urlRewrite_Declaration. now rewrite Hs, Hp. }
  destruct (JS.startsWith "url(data:" (value decl)) eqn:Hd.
  { inversion H; subst. unfold urlRewrite_Declaration. now rewrite Hs, Hp, Hd. }
  destruct (fold_left (rewrite_match URL_href baseUrl) (matchAll_url (value decl))
                      (Ok (value decl))) as [v| |]; try discriminate H.
  cbn [bind] in H. inversion H; subst. unfold urlRewrite_Declaration.
  cbn [value alreadyProcessed]. now destruct (JS.startsWith "url(" v).
Qed.

(** A relative reference that [new URL] rejects (an invalid base, say) makes
    the handler throw. *)
Theorem urlRewrite_Declaration_throws (baseUrl property : string) (imp : bool)
    (u rest : string) :
  relative_reference u = true ->
  JS.includes "url(" rest = false ->
  URL_href u baseUrl = None ->
  urlRewrite_Declaration URL_href baseUrl
    {| prop := property; value := "url(" +:+ u +:+ ")" +:+ rest; important := imp;
       alreadyProcessed := false |}
  = TypeError.
Proof.
  intros Hrel Hrest Hurl.
  unfold urlRewrite_Declaration. cbn [value alreadyProcessed prop important].
  change (JS.startsWith "url(" ("url(" +:+ u +:+ ")" +:+ rest)) with true. cbv iota.
  change (JS.startsWith "url(data:" ("url(" +:+ u +:+ ")" +:+ rest))
    with (JS.startsWith "data:" (u +:+ String ")" rest)).
  assert (Hd : JS.startsWith "data:" (u +:+ String ")" rest) = false).
  { rewrite (startsWith_snoc_other ")") by reflexivity.
    unfold relative_reference in Hrel.
    repeat (apply andb_true_iff in Hrel as [Hrel ?]).
    repeat match goal with X : negb _ = true |- _ => apply negb_true_iff in X end.
    match goal with X : lookahead_excluded _ = false |- _ => rename X into Hl end.
    unfold lookahead_excluded in Hl.
    rewrite (strip_optional_other double_quote u) in Hl by assumption.
    rewrite (strip_optional_other "'" u) in Hl by assumption.
    repeat (apply orb_false_iff in Hl as [Hl _]). exact Hl. }
  rewrite Hd. rewrite matchAll_url_single by assumption.
  cbn [fold_left]. unfold rewrite_match, new_URL. cbn [bind]. now rewrite Hurl.
Qed.

Lemma import_matches_length run s :
  length (import_matches_from run s) = JS.count_char ")" s.
Proof.
  revert run. induction s as [|c s IH]; intros run; [reflexivity|].
  cbn [import_matches_from JS.count_char].
  destruct (Ascii.eqb c ")") eqn:E.
  - apply Ascii.eqb_eq in E. subst. cbn. now rewrite IH.
  - rewrite Ascii.eqb_sym, E. cbn. apply IH.
Qed.

Lemma indexOf_not_included p s : JS.includes p s = false -> JS.indexOf p s = None.
Proof.
  induction s as [|c s IH]; cbn [JS.includes JS.indexOf]; intros H;
    apply orb_false_iff in H as [Hs Hi]; rewrite Hs; [reflexivity|].
  now rewrite IH.
Qed.

(** An [@import] rule whose parameters hold at most one closing parenthesis
    (a single reference) is not rewritten: the handler looks for the second
    match of its pattern, finds none, and resolves and replaces the text
    [undefined] instead. *)
Theorem urlRewrite_import_single_reference_unchanged (baseUrl : string) (rule : at_rule)
    (href : string) :
  name rule = "import" ->
  JS.count_char ")" (params rule) <= 1 ->
  JS.includes "undefined" (params rule) = false ->
  URL_href "undefined" baseUrl = Some href ->
  urlRewrite_AtRule URL_href baseUrl rule = Ok rule.
Proof.
  intros Hname Hcount Hundef Hurl. unfold urlRewrite_AtRule. rewrite Hname.
  change (String.eqb "import" "import") with true. cbv iota.
  assert (Hnth : nth 1 (match_import (params rule)) "undefined" = "undefined").
  { unfold match_import.
    pose proof (import_matches_length EmptyString (params rule)) as Hlen.
    destruct (import_matches_from EmptyString (params rule)) as [|m [|m' l]];
      try reflexivity. cbn [length] in Hlen. lia. }
  rewrite Hnth. unfold new_URL. rewrite Hurl. cbn [bind].
  unfold JS.replace. rewrite (indexOf_not_included _ _ Hundef).
  destruct rule. cbn in *. now subst.
Qed.

End UrlRewritingMore.

Section UrlRewritingMoreExamples.
Import CssOverride Props.

Lemma urlRewrite_Declaration_idempotent_witness :
  urlRewrite_Declaration Examples.resolve "https://site.com/css/a.css"
    {| prop := "background"; value := "url(https://site.com/img/a.png) no-repeat";
       important := false; alreadyProcessed := true |}
  = Ok {| prop := "background"; value := "url(https://site.com/img/a.png) no-repeat";
          important := false; alreadyProcessed := true |}.
Proof.
  apply (urlRewrite_Declaration_idempotent Examples.resolve "https://site.com/css/a.css"
           {| prop := "background"; value := "url(../img/a.png) no-repeat";
              important := false; alreadyProcessed := false |}).
  vm_compute. reflexivity.
Defined.

Lemma urlRewrite_Declaration_throws_witness :
  urlRewrite_Declaration Examples.resolve "about:blank"
    {| prop := "background"; value := "url(" +:+ "img/a.png" +:+ ")" +:+ " no-repeat";
       important := false; alreadyProcessed := false |}
  = TypeError.
Proof.
  apply (urlRewrite_Declaration_throws Examples.resolve "about:blank" "background" false
           "img/a.png" " no-repeat"); vm_compute; reflexivity.
Defined.

Lemma urlRewrite_import_single_reference_unchanged_witness :
  urlRewrite_AtRule Examples.resolve "https://site.com/css/a.css"
    {| name := "import"; params := "url(theme/dark.css) screen";
       atrule_alreadyProcessed := false |}
  = Ok {| name := "import"; params := "url(theme/dark.css) screen";
          atrule_alreadyProcessed := false |}.
Proof.
  apply (urlRewrite_import_single_reference_unchanged Examples.resolve
           "https://site.com/css/a.css"
           {| name := "import"; params := "url(theme/dark.css) screen";
              atrule_alreadyProcessed := false |}
           "https://site.com/css/undefined").
  - reflexivity.
  - vm_compute. lia.
  - vm_compute. reflexivity.
  - vm_compute. reflexivity.
Defined.

End UrlRewritingMoreExamples.

(** ** Fixed elements and body margins *)
Section RulePlugins.
Import CssOverride.

Lemma replace_margin_prefix p :
  JS.startsWith "margin" p = true ->
  JS.replace "margin" "padding" p = "padding" +:+ JS.drop 6 p.
Proof.
  intros H. unfold JS.replace.
  assert (Hi : JS.indexOf "margin" p = Some 0) by (destruct p; cbn [JS.indexOf]; now rewrite H).
  rewrite Hi. now rewrite take_zero.
Qed.

Lemma margin_to_padding_result (node : child) (d : declaration) :
  margin_to_padding node = DeclNode d -> JS.startsWith "margin" (prop d) = false.
Proof.
  destruct node as [d0 | ty]; cbn [margin_to_padding]; [|discriminate].
  destruct (JS.startsWith "margin" (prop d0)) eqn:E; intros H; inversion H; subst.
  - cbn [prop]. now rewrite replace_margin_prefix.
  - exact E.
Qed.

Lemma margin_to_padding_idempotent (node : child) :
  margin_to_padding (margin_to_padding node) = margin_to_padding node.
Proof.
  destruct (margin_to_padding node) as [d | ty] eqn:E; [|reflexivity].
  cbn [margin_to_padding]. now rewrite (margin_to_padding_result node d E).
Qed.

(** In a [body] rule every [margin...] property becomes the [padding...]
    property of the same suffix, with its value; the other nodes, the order
    and the number of nodes stay; afterwards no declaration of the rule
    starts with [margin]. *)
Theorem body_margins_become_padding (r : rule) (i : nat) (d : declaration)
    (suffix : string) :
  selector r = "body" ->
  nth_error (nodes r) i = Some (DeclNode d) ->
  prop d = "margin" +:+ suffix ->
  nth_error (nodes (hideFixedElements_Rule r)) i
    = Some (DeclNode {| prop := "padding" +:+ suffix; value := value d;
                        important := important d;
                        alreadyProcessed := alreadyProcessed d |})
  /\ length (nodes (hideFixedElements_Rule r)) = length (nodes r)
  /\ (forall d', In (DeclNode d') (nodes (hideFixedElements_Rule r)) ->
                 JS.startsWith "margin" (prop d') = false)
  /\ (forall j ty, nth_error (nodes r) j = Some (OtherNode ty) ->
                   nth_error (nodes (hideFixedElements_Rule r)) j = Some (OtherNode ty)).
Proof.
  intros Hsel Hnth Hprop. unfold hideFixedElements_Rule. rewrite Hsel.
  change (String.eqb "body" "body") with true. cbv iota. cbn [nodes].
  split; [|split; [|split]].
  - rewrite nth_error_map, Hnth. cbn [option_map margin_to_padding]. rewrite Hprop.
    change (JS.startsWith "margin" ("margin" +:+ suffix)) with true. cbv iota.
    rewrite replace_margin_prefix by reflexivity. reflexivity.
  - apply length_map.
  - intros d' Hin. apply in_map_iff in Hin as [node [Hnode _]].
    eapply margin_to_padding_result; eassumption.
  - intros j ty Hj. rewrite nth_error_map, Hj. reflexivity.
Qed.

(** The two plugins carry the same [Rule] handler, and it is idempotent:
    running both, or one twice, is running one once. *)
Theorem body_rule_handlers_agree (r : rule) :
  styleTweaks_Rule r = hideFixedElements_Rule r
  /\ hideFixedElements_Rule (hideFixedElements_Rule r) = hideFixedElements_Rule r
  /\ styleTweaks_Rule (hideFixedElements_Rule r) = hideFixedElements_Rule r.
Proof.
  assert (Hidem : hideFixedElements_Rule (hideFixedElements_Rule r)
                  = hideFixedElements_Rule r).
  { unfold hideFixedElements_Rule. destruct (String.eqb (selector r) "body") eqn:E.
    - cbn [selector nodes]. rewrite E. f_equal. rewrite map_map.
      apply map_ext. intros node. apply margin_to_padding_idempotent.
    - now rewrite E. }
  split; [reflexivity | split; [exact Hidem | exact Hidem]].
Qed.

(** A [position: fixed] or [position: sticky] declaration gets
    [display: none !important] appended behind the nodes of its rule, which
    stay as they are; the appended declaration causes no further append when
    it is visited in turn. *)
Theorem fixed_position_hidden (decl : declaration) (parent : rule) :
  prop decl = "position" ->
  value decl = "fixed" \/ value decl = "sticky" ->
  let hidden := {| prop := "display"; value := "none"; important := true;
                   alreadyProcessed := false |} in
  nodes (hideFixedElements_Declaration decl parent) = nodes parent ++ [DeclNode hidden]
  /\ selector (hideFixedElements_Declaration decl parent) = selector parent
  /\ hideFixedElements_Declaration hidden (hideFixedElements_Declaration decl parent)
     = hideFixedElements_Declaration decl parent.
Proof.
  intros Hprop Hvalue hidden.
  assert (Hv : String.eqb (value decl) "fixed" || String.eqb (value decl) "sticky" = true).
  { destruct Hvalue as [-> | ->]; reflexivity. }
  assert (Hstep : hideFixedElements_Declaration decl parent
                  = {| selector := selector parent;
                       nodes := nodes parent ++ [DeclNode hidden] |}).
  { unfold hideFixedElements_Declaration. rewrite Hprop, Hv. reflexivity. }
  rewrite Hstep. cbn [nodes selector]. split; [reflexivity | split; reflexivity].
Qed.

(** Declarations other than [position: fixed] and [position: sticky] leave
    their rule alone. *)
Lemma other_declarations_keep_rule (decl : declaration) (parent : rule) :
  prop decl <> "position" \/ (value decl <> "fixed" /\ value decl <> "sticky") ->
  hideFixedElements_Declaration decl parent = parent.
Proof.
  intros H. unfold hideFixedElements_Declaration.
  destruct H as [H | [H1 H2]].
  - apply String.eqb_neq in H. now rewrite H.
  - apply String.eqb_neq in H1. apply String.eqb_neq in H2.
    rewrite H1, H2. now rewrite andb_false_r.
Qed.

End RulePlugins.

Section RulePluginExamples.
Import CssOverride.

Lemma body_margins_become_padding_witness :
  let r := {| selector := "body";
              nodes := [OtherNode "comment";
                        DeclNode {| prop := "margin-left"; value := "10px";
                                    important := false; alreadyProcessed := false |};
                        DeclNode {| prop := "padding-left"; value := "4px";
                                    important := false; alreadyProcessed := false |}] |} in
  nth_error (nodes (hideFixedElements_Rule r)) 1
    = Some (DeclNode {| prop := "padding" +:+ "-left"; value := "10px";
                        important := false; alreadyProcessed := false |})
  /\ length (nodes (hideFixedElements_Rule r)) = length (nodes r)
  /\ (forall d', In (DeclNode d') (nodes (hideFixedElements_Rule r)) ->
                 JS.startsWith "margin" (prop d') = false)
  /\ (forall j ty, nth_error (nodes r) j = Some (OtherNode ty) ->
                   nth_error (nodes (hideFixedElements_Rule r)) j = Some (OtherNode ty)).
Proof.
  intros r.
  apply (body_margins_become_padding r 1
           {| prop := "margin-left"; value := "10px";
              important := false; alreadyProcessed := false |} "-left");
    reflexivity.
Defined.

Lemma fixed_position_hidden_witness :
  let parent := {| selector := "nav";
                   nodes := [DeclNode {| prop := "position"; value := "sticky";
                                         important := false;
                                         alreadyProcessed := false |}] |} in
  let decl := {| prop := "position"; value := "sticky"; important := false;
                 alreadyProcessed := false |} in
  let hidden := {| prop := "display"; value := "none"; important := true;
                   alreadyProcessed := false |} in
  nodes (hideFixedElements_Declaration decl parent) = nodes parent ++ [DeclNode hidden]
  /\ selector (hideFixedElements_Declaration decl parent) = selector parent
  /\ hideFixedElements_Declaration hidden (hideFixedElements_Declaration decl parent)
     = hideFixedElements_Declaration decl parent.
Proof.
  intros parent decl.
  apply (fixed_position_hidden decl parent); [reflexivity | right; reflexivity].
Defined.

End RulePluginExamples.

(** ** The traversal, completed *)
Section TraversalMore.
Import Dom IterateDOM Props.

Variable random : nat -> string.

Lemma style_after_add (n m : node) (token : string) (doc : document) :
  computedStyle (element_at (update_element n (classList_add token) doc) m)
  = computedStyle (element_at doc m).
Proof. destruct (element_after_add n m token doc) as [-> | ->]; reflexivity. Qed.

Lemma process_container_backgrounds (t : traversal) (cur : node) :
  backgroundColors (process_container random t cur)
  = backgroundColors t
    ++ (if negb (JS.includes "rgba(0, 0, 0, 0)"
                   (backgroundColor (computedStyle (element_at (dom t) cur))))
        then [backgroundColor (computedStyle (element_at (dom t) cur))] else []).
Proof.
  unfold process_container, _getNodeSelector. cbv zeta.
  cbn [dom push_selector concat_overrides]. rewrite style_after_add.
  destruct (negb (JS.includes "rgba(0, 0, 0, 0)"
                    (backgroundColor (computedStyle (element_at (dom t) cur)))));
    cbn [backgroundColors push_backgroundColor push_selector concat_overrides];
    [reflexivity | now rewrite app_nil_r].
Qed.

Lemma push_child_selector_backgrounds (t : traversal) (e : node) :
  backgroundColors (push_child_selector random t e) = backgroundColors t.
Proof. reflexivity. Qed.

(** The collected background colours are never the transparent one, and
    there is at most one per text-container selector. *)
Theorem backgrounds_not_transparent (fuel : nat) (doc : document) (calls : nat)
    (t : traversal) :
  iterateDOM random fuel doc calls = Ok t ->
  forallb (fun c => negb (JS.includes "rgba(0, 0, 0, 0)" c)) (backgroundColors t) = true
  /\ length (backgroundColors t)
     <= length (List.filter is_text_container (containerSelectors t)).
Proof.
  apply (iterateDOM_invariant random backgrounds_invariant).
  - intros t0 e [Hall Hlen] _. unfold backgrounds_invariant.
    rewrite push_child_selector_backgrounds.
    destruct (push_child_selector_fields random t0 e) as (_ & _ & [sel Hcs] & _).
    rewrite Hcs, List.filter_app, length_app. split; [exact Hall | lia].
  - intros t0 cur H _ _ _. exact H.
  - intros t0 cur [Hall Hlen] _ _ _. unfold backgrounds_invariant.
    rewrite process_container_backgrounds.
    destruct (process_container_fields random (add_seen cur t0) cur)
      as (_ & _ & [sel Hcs] & _).
    rewrite Hcs, List.filter_app, !length_app. cbn [add_seen backgroundColors dom containerSelectors].
    cbn [List.filter is_text_container selector_kind_of kind_eqb length].
    destruct (negb (JS.includes "rgba(0, 0, 0, 0)"
                      (backgroundColor (computedStyle (element_at (dom t0) cur))))) eqn:E.
    + rewrite forallb_app, Hall. cbn [forallb]. rewrite E. cbn [length]. split; [reflexivity | lia].
    + rewrite app_nil_r. cbn [length]. split; [exact Hall | lia].
  - split; [reflexivity | cbn; lia].
Qed.

Lemma hasAttribute_class_after_add (token : string) (e : element) :
  hasAttribute (classList_add token e) "class" = true.
Proof.
  unfold hasAttribute at 1. cbn [classList_add attributeNames].
  destruct (hasAttribute e "class") eqn:H; [exact H|].
  rewrite existsb_app. cbn [existsb]. apply orb_true_r.
Qed.

Lemma class_attribute_created_others (e e' : element) (name : string) :
  class_attribute_created e e' -> name <> "class" ->
  hasAttribute e' name = hasAttribute e name.
Proof.
  intros [Hsame | [_ Happ]] Hname; unfold hasAttribute.
  - now rewrite Hsame.
  - rewrite Happ, existsb_app. cbn [existsb].
    apply String.eqb_neq in Hname. now rewrite Hname, !orb_false_r.
Qed.

Lemma only_container_classes_after_add (doc : document) (t t' : traversal) (n : node)
    (suffix : string) :
  dom t' = update_element n (classList_add ("container_" +:+ suffix)) (dom t) ->
  only_container_classes_added doc t -> only_container_classes_added doc t'.
Proof.
  intros Hdom [Horder H]. unfold only_container_classes_added. rewrite Hdom.
  split; [exact Horder|]. intros m.
  destruct (H m) as (Htag & Hid & Hattr & Hstyle & added & Hadded & Hall & Hclass).
  rewrite update_element_at. destruct (Nat.eqb m n) eqn:E.
  - apply Nat.eqb_eq in E. subst m.
    split; [exact Htag | split; [exact Hid | split; [|split; [exact Hstyle|]]]].
    + unfold class_attribute_created. cbn [classList_add attributeNames].
      destruct (hasAttribute (element_at (dom t) n) "class") eqn:Hc; [exact Hattr|].
      destruct Hattr as [Hsame | [Hno Happ]].
      * right. split; [|now rewrite Hsame].
        unfold hasAttribute in Hc |- *. now rewrite <- Hsame.
      * exfalso. unfold hasAttribute in Hc. rewrite Happ, existsb_app in Hc.
        cbn [existsb] in Hc. rewrite orb_true_r in Hc. discriminate Hc.
    + cbn [classList_add classList].
      destruct (contains_token ("container_" +:+ suffix) (classList (element_at (dom t) n))).
      * exists added. split; [exact Hadded | split; [exact Hall|]].
        intros _. apply hasAttribute_class_after_add.
      * exists (added ++ ["container_" +:+ suffix]). split; [|split].
        -- rewrite Hadded. now rewrite <- app_assoc.
        -- rewrite forallb_app, Hall. cbn [forallb]. now rewrite startsWith_refl_app.
        -- intros _. apply hasAttribute_class_after_add.
  - split; [exact Htag | split; [exact Hid | split; [exact Hattr | split; [exact Hstyle|]]]].
    exists added. now repeat split.
Qed.

(** The traversal changes the page in one way only: it appends classes of
    the generated pattern to elements, and with the first of them the class
    attribute comes to an element that had none.  Tags, ids, every other
    attribute, parent links, the classes that were there and the order of
    the document stay. *)
Theorem traversal_only_adds_container_classes (fuel : nat) (doc : document) (calls : nat)
    (t : traversal) (n : node) :
  iterateDOM random fuel doc calls = Ok t ->
  treeOrder (dom t) = treeOrder doc
  /\ tagName (element_at (dom t) n) = tagName (element_at doc n)
  /\ elementId (element_at (dom t) n) = elementId (element_at doc n)
  /\ (attributeNames (element_at (dom t) n) = attributeNames (element_at doc n)
      \/ (hasAttribute (element_at doc n) "class" = false
          /\ attributeNames (element_at (dom t) n)
             = attributeNames (element_at doc n) ++ ["class"]))
  /\ (forall name, name <> "class" ->
        hasAttribute (element_at (dom t) n) name = hasAttribute (element_at doc n) name)
  /\ parentElement (element_at (dom t) n) = parentElement (element_at doc n)
  /\ exists added,
       classList (element_at (dom t) n) = classList (element_at doc n) ++ added
       /\ forallb (JS.startsWith "container_") added = true
       /\ (added <> [] -> hasAttribute (element_at (dom t) n) "class" = true).
Proof.
  intros Hrun.
  assert (Hframe : only_container_classes_added doc t).
  { revert Hrun. apply (iterateDOM_invariant random (only_container_classes_added doc)).
    - intros t0 e H _. eapply only_container_classes_after_add; [|exact H].
      apply push_child_selector_fields.
    - intros t0 cur H _ _ _. exact H.
    - intros t0 cur H _ _ _.
      apply (only_container_classes_after_add doc (add_seen cur t0) _ cur
               (random (randomCalls t0))); [|exact H].
      apply (process_container_fields random (add_seen cur t0) cur).
    - split; [reflexivity|]. intros m.
      split; [reflexivity | split; [reflexivity | split; [now left | split; [reflexivity|]]]].
      exists []. split; [now rewrite app_nil_r | split; [reflexivity | congruence]]. }
  assert (Htree : same_tree doc t).
  { revert Hrun. apply (iterateDOM_invariant random (same_tree doc)).
    - intros; now apply same_tree_child.
    - intros ? ? H _ _ _. exact H.
    - intros; now apply same_tree_process.
    - apply (same_tree_refl (initial doc calls)). }
  destruct Hframe as [Horder H].
  destruct (H n) as (Htag & Hid & Hattr & _ & Hadded).
  split; [exact Horder | split; [exact Htag | split; [exact Hid | split; [exact Hattr|]]]].
  split; [intros name Hname; now apply class_attribute_created_others|].
  split; [apply (proj2 Htree n) | exact Hadded].
Qed.

Lemma forEach_visible_only (doc : document) (fuel : nat) (l : list node) :
  forall t, same_tree doc t ->
  forEach random fuel l t = forEach random fuel (List.filter (visible doc) l) t.
Proof.
  induction l as [|leaf rest IH]; intros t Htree; [reflexivity|].
  cbn [forEach List.filter]. unfold visible at 1.
  pose proof (proj2 (proj2 Htree leaf)) as Hheight.
  destruct (Z.eqb (offsetHeight (element_at doc leaf)) 0) eqn:E; cbn [negb].
  - unfold visit_paragraph. rewrite Hheight, E. cbn [bind]. now apply IH.
  - cbn [forEach].
    destruct (visit_paragraph random fuel leaf t) as [t1| |] eqn:Hvisit; try reflexivity.
    cbn [bind]. apply IH. eapply same_tree_visit; eassumption.
Qed.

(** The traversal is the walk over the visible leaves alone: leaves of
    height zero are passed over and leave no trace in the result. *)
Theorem traversal_ignores_invisible_leaves (fuel : nat) (doc : document) (calls : nat) :
  iterateDOM random fuel doc calls
  = forEach random fuel (List.filter (visible doc) (paragraphs_of doc)) (initial doc calls).
Proof. apply forEach_visible_only. apply (same_tree_refl (initial doc calls)). Qed.

Lemma iterateParents_loop_body (fuel : nat) (t t' : traversal) (cur : option node) :
  iterateParents_loop random fuel t cur = Ok t' ->
  documentBody (dom t') = documentBody (dom t).
Proof.
  apply (iterateParents_loop_invariant random
           (fun x => documentBody (dom x) = documentBody (dom t))).
  - intros t0 c H _ _ _. exact H.
  - intros t0 c H _ _ _.
    destruct (process_container_fields random (add_seen c t0) c) as (Hdom & _).
    rewrite Hdom. exact H.
  - reflexivity.
Qed.

(** A second walk from the same element changes nothing: the element is
    marked, so no selector is generated and the loop stops at once. *)
Theorem second_walk_changes_nothing (fuel : nat) (t t' : traversal) (e : node) :
  iterateParents random fuel t (Some e) = Ok t' ->
  e <> documentBody (dom t) ->
  iterateParents random fuel t' (Some e) = Ok t'.
Proof.
  intros Hrun Hne. rewrite iterateParents_entry in Hrun.
  set (t0 := if negb (bool_decide (e ∈ seenNodes t))
             then push_child_selector random t e else t) in Hrun.
  assert (Hbody0 : documentBody (dom t0) = documentBody (dom t)).
  { unfold t0. destruct (negb (bool_decide (e ∈ seenNodes t))); [|reflexivity].
    destruct (push_child_selector_fields random t e) as (Hd & _). now rewrite Hd. }
  assert (Hseen : e ∈ seenNodes t').
  { apply (iterateParents_loop_marks random fuel t0 t' e Hrun). now rewrite Hbody0. }
  pose proof (iterateParents_loop_body fuel t0 t' (Some e) Hrun) as Hbody.
  rewrite iterateParents_entry. rewrite (bool_decide_eq_true_2 _ Hseen). cbn [negb].
  destruct fuel as [|fuel]; [discriminate Hrun|].
  rewrite iterateParents_loop_step.
  assert (Hb : Nat.eqb e (documentBody (dom t')) = false).
  { apply Nat.eqb_neq. now rewrite Hbody, Hbody0. }
  rewrite Hb. now rewrite (bool_decide_eq_true_2 _ Hseen).
Qed.

(** *** The body *)

Lemma visit_body_child (doc : document) (fuel : nat) (leaf : node) (t t1 : traversal) :
  same_tree doc t -> child_selectors_invariant doc t ->
  visit_paragraph random fuel leaf t = Ok t1 ->
  count_selectors ChildParagraphs (documentBody doc) (containerSelectors t1)
  = count_selectors ChildParagraphs (documentBody doc) (containerSelectors t)
    + (if visible doc leaf && child_of_body doc leaf then 1 else 0).
Proof.
  intros Htree (Hbody & Hnot & _) Hvisit. unfold visit_paragraph in Hvisit.
  unfold visible, child_of_body.
  rewrite (proj2 (proj2 Htree leaf)), (proj1 (proj2 Htree leaf)) in Hvisit.
  destruct (Z.eqb (offsetHeight (element_at doc leaf)) 0).
  { inversion Hvisit; subst. cbn. lia. }
  destruct (parentElement (element_at doc leaf)) as [e|]; [|discriminate Hvisit].
  cbn [negb andb]. rewrite iterateParents_entry in Hvisit.
  destruct (Nat.eqb e (documentBody doc)) eqn:E.
  - apply Nat.eqb_eq in E. subst e.
    rewrite (bool_decide_eq_false_2 _ Hnot) in Hvisit. cbn [negb] in Hvisit.
    destruct (push_child_selector_fields random t (documentBody doc))
      as (Hd & _ & [sel Hcs] & _).
    destruct fuel as [|fuel]; [discriminate Hvisit|].
    rewrite iterateParents_loop_step in Hvisit. rewrite Hd in Hvisit.
    change (documentBody (update_element (documentBody doc)
              (classList_add ("container_" +:+ random (randomCalls t))) (dom t)))
      with (documentBody (dom t)) in Hvisit.
    rewrite Hbody, Nat.eqb_refl in Hvisit. inversion Hvisit; subst.
    rewrite Hcs, count_selectors_snoc. cbn [selector_node selector_kind_of kind_eqb].
    now rewrite Nat.eqb_refl.
  - set (t0 := if negb (bool_decide (e ∈ seenNodes t))
               then push_child_selector random t e else t) in Hvisit.
    assert (H0 : documentBody (dom t0) = documentBody doc
                 /\ seenNodes t0 = seenNodes t
                 /\ count_selectors ChildParagraphs (documentBody doc) (containerSelectors t0)
                    = count_selectors ChildParagraphs (documentBody doc) (containerSelectors t)).
    { unfold t0. destruct (negb (bool_decide (e ∈ seenNodes t))); [|repeat split; assumption].
      destruct (push_child_selector_fields random t e) as (Hd & Hs & [sel Hcs] & _).
      rewrite Hd, Hs, Hcs, count_selectors_snoc. cbn [selector_node]. rewrite E.
      repeat split; [exact Hbody | cbn; lia]. }
    destruct H0 as (Hb0 & Hs0 & Hc0).
    assert (Hn0 : documentBody doc ∉ seenNodes t0) by now rewrite Hs0.
    destruct (iterateParents_loop_frame random doc fuel t0 t1 (Some e) Hb0 Hn0 Hvisit)
      as (_ & _ & _ & Hsame).
    rewrite Hsame, Hc0. lia.
Qed.

Lemma forEach_body_children (doc : document) (fuel : nat) (l : list node) :
  forall t t', same_tree doc t -> child_selectors_invariant doc t ->
  forEach random fuel l t = Ok t' ->
  count_selectors ChildParagraphs (documentBody doc) (containerSelectors t')
  = count_selectors ChildParagraphs (documentBody doc) (containerSelectors t)
    + length (List.filter (fun leaf => visible doc leaf && child_of_body doc leaf) l).
Proof.
  induction l as [|leaf rest IH]; intros t t' Htree Hinv Hrun.
  - inversion Hrun; subst. cbn. lia.
  - cbn [forEach] in Hrun.
    destruct (visit_paragraph random fuel leaf t) as [t1| |] eqn:Hvisit;
      try discriminate Hrun.
    cbn [bind] in Hrun.
    assert (Hinv1 : child_selectors_invariant doc t1).
    { unfold visit_paragraph in Hvisit.
      destruct (Z.eqb (offsetHeight (element_at (dom t) leaf)) 0).
      - now inversion Hvisit; subst.
      - destruct (parentElement (element_at (dom t) leaf)) as [e|]; [|discriminate Hvisit].
        eapply child_selectors_iterateParents; eassumption. }
    rewrite (IH t1 t' (same_tree_visit random doc fuel leaf t t1 Htree Hvisit) Hinv1 Hrun).
    rewrite (visit_body_child doc fuel leaf t t1 Htree Hinv Hvisit).
    cbn [List.filter].
    destruct (visible doc leaf && child_of_body doc leaf); cbn [length]; lia.
Qed.

(** The body is never marked and gets no text-container selector, but it
    gets one [selector > p] entry for every visible leaf that is its child:
    these are not deduplicated. *)
Theorem body_selected_once_per_child (fuel : nat) (doc : document) (calls : nat)
    (t : traversal) :
  iterateDOM random fuel doc calls = Ok t ->
  count_selectors ChildParagraphs (documentBody doc) (containerSelectors t)
  = length (List.filter (fun leaf => visible doc leaf && child_of_body doc leaf)
                        (paragraphs_of doc))
  /\ count_selectors TextContainer (documentBody doc) (containerSelectors t) = 0
  /\ documentBody doc ∉ seenNodes t.
Proof.
  intros Hrun.
  pose proof (child_selectors_traversal random fuel doc calls t Hrun) as (_ & Hnot & _).
  pose proof (selectors_invariant_traversal random fuel doc calls t Hrun) as (_ & I2 & _).
  split; [|split; [now apply I2 | exact Hnot]].
  unfold iterateDOM in Hrun.
  rewrite (forEach_body_children doc fuel (paragraphs_of doc) (initial doc calls) t);
    [reflexivity | apply (same_tree_refl (initial doc calls)) | | exact Hrun].
  split; [reflexivity | split; [apply not_elem_of_empty|]].
  intros n _. cbn. split; [lia | auto].
Qed.

End TraversalMore.

Section BelowBody.
Import Dom IterateDOM Props.

Variable random : nat -> string.

Lemma stays_below_body_push (doc : document) (t t' : traversal) (n : node)
    (k : selector_kind) (sel : string) :
  seenNodes t' = seenNodes t ->
  containerSelectors t'
    = containerSelectors t
      ++ [{| selector_node := n; selector_kind_of := k; selector_text := sel |}] ->
  body_or_below doc n ->
  stays_below_body doc t -> stays_below_body doc t'.
Proof.
  intros Hseen Hcs Hn [Hs Hc]. split.
  - intros m Hm. rewrite Hseen in Hm. now apply Hs.
  - intros c Hin. rewrite Hcs in Hin. apply in_app_or in Hin as [Hin | [<- | []]];
      [now apply Hc | exact Hn].
Qed.

Lemma stays_below_body_loop (doc : document) (fuel : nat) :
  forall t cur t',
    same_tree doc t -> stays_below_body doc t -> body_or_below doc cur ->
    iterateParents_loop random fuel t (Some cur) = Ok t' ->
    stays_below_body doc t'.
Proof.
  induction fuel as [|fuel IH]; intros t cur t' Htree Hinv Hcur Hrun; [discriminate Hrun|].
  rewrite iterateParents_loop_step in Hrun. rewrite (proj1 Htree) in Hrun.
  destruct (Nat.eqb cur (documentBody doc)) eqn:Hbody; [now inversion Hrun; subst|].
  apply Nat.eqb_neq in Hbody.
  destruct (bool_decide (cur ∈ seenNodes t)); [now inversion Hrun; subst|].
  assert (Hbelow : below_body doc cur).
  { destruct Hcur as [[|k] Hk]; [inversion Hk; contradiction | now exists k]. }
  assert (Hmarked : stays_below_body doc (add_seen cur t)).
  { destruct Hinv as [Hs Hc]. split; [|exact Hc].
    intros m Hm. cbn [add_seen seenNodes] in Hm.
    apply elem_of_add_seen in Hm as [-> | Hm]; [exact Hbelow | now apply Hs]. }
  destruct (_isAsideEquivalent (element_at (dom t) cur)) as [[|]| |];
    cbn [bind] in Hrun; try discriminate Hrun; [now inversion Hrun; subst|].
  destruct (process_container_fields random (add_seen cur t) cur)
    as (_ & Hseen & [sel Hcs] & _).
  rewrite (proj1 (proj2 Htree cur)) in Hrun.
  destruct Hbelow as [k Hk]. cbn [ancestor] in Hk.
  destruct (parentElement (element_at doc cur)) as [p|] eqn:Hp; [|discriminate Hk].
  apply (IH (process_container random (add_seen cur t) cur) p t'); [| | |exact Hrun].
  - now apply same_tree_process.
  - eapply stays_below_body_push; [exact Hseen | exact Hcs | | exact Hmarked].
    exists (S k). cbn [ancestor]. now rewrite Hp.
  - now exists k.
Qed.

Lemma stays_below_body_forEach (doc : document) (fuel : nat) (l : list node) :
  (forall leaf, In leaf l -> below_body doc leaf) ->
  forall t t', same_tree doc t -> stays_below_body doc t ->
               forEach random fuel l t = Ok t' -> stays_below_body doc t'.
Proof.
  induction l as [|leaf rest IH]; intros Hl t t' Htree Hinv Hrun.
  - now inversion Hrun; subst.
  - cbn [forEach] in Hrun.
    destruct (visit_paragraph random fuel leaf t) as [t1| |] eqn:Hvisit;
      try discriminate Hrun.
    cbn [bind] in Hrun.
    apply (IH (fun x H => Hl x (or_intror H)) t1 t'); [| |exact Hrun].
    + eapply same_tree_visit; eassumption.
    + unfold visit_paragraph in Hvisit.
      destruct (Z.eqb (offsetHeight (element_at (dom t) leaf)) 0).
      { now inversion Hvisit; subst. }
      rewrite (proj1 (proj2 Htree leaf)) in Hvisit.
      destruct (Hl leaf (or_introl eq_refl)) as [k Hk]. cbn [ancestor] in Hk.
      destruct (parentElement (element_at doc leaf)) as [e|]; [|discriminate Hk].
      assert (He : body_or_below doc e) by now exists k.
      rewrite iterateParents_entry in Hvisit.
      eapply (stays_below_body_loop doc); [| |exact He | exact Hvisit].
      * destruct (negb (bool_decide (e ∈ seenNodes t))); [now apply same_tree_child | exact Htree].
      * destruct (negb (bool_decide (e ∈ seenNodes t))); [|exact Hinv].
        destruct (push_child_selector_fields random t e) as (_ & Hseen & [sel Hcs] & _).
        eapply stays_below_body_push; eassumption.
Qed.

(** The traversal stays inside the body: every element it marks lies
    strictly below the body, and every selector it collects is for the body
    or an element below it (never for the head or the root). *)
Theorem traversal_stays_below_body (fuel : nat) (doc : document) (calls : nat)
    (t : traversal) :
  iterateDOM random fuel doc calls = Ok t ->
  (forall n, n ∈ seenNodes t ->
     exists k, ancestor doc (S k) n = Some (documentBody doc))
  /\ (forall c, In c (containerSelectors t) ->
        exists k, ancestor doc k (selector_node c) = Some (documentBody doc)).
Proof.
  intros Hrun.
  apply (stays_below_body_forEach doc fuel (paragraphs_of doc))
    with (t := initial doc calls); [| apply (same_tree_refl (initial doc calls)) | | exact Hrun].
  - intros leaf Hleaf. rewrite paragraphs_of_never_falls_back in Hleaf.
    unfold querySelectorAll in Hleaf. apply filter_In in Hleaf as [_ Hleaf].
    apply andb_true_iff in Hleaf as [_ Hleaf].
    apply descendant_ancestor in Hleaf as [k [_ Hk]]. now exists k.
  - split; [intros m Hm; exfalso; revert Hm; apply not_elem_of_empty | intros x []].
Qed.

End BelowBody.

(** ** The remaining helpers of iterateDOM.js *)
Section Helpers.
Import Dom IterateDOM Props StyleChanges.

Lemma every_app f a b : JS.every f (a +:+ b) = JS.every f a && JS.every f b.
Proof.
  induction a as [|c a IH]; [reflexivity|].
  change (String c a +:+ b) with (String c (a +:+ b)).
  cbn [JS.every]. now rewrite IH, andb_assoc.
Qed.

Lemma valid_classname_chars (classname : string) :
  valid_classname classname = true -> JS.every is_name_char classname = true.
Proof.
  unfold valid_classname. intros H.
  assert (Hrest : forall s, match s with
                            | String c s' => is_name_start c && JS.every is_name_char s'
                            | EmptyString => false
                            end = true -> JS.every is_name_char s = true).
  { intros [|c s'] Hs; [discriminate Hs|]. apply andb_true_iff in Hs as [Hc Hs].
    cbn [JS.every]. unfold is_name_char at 1. now rewrite Hc, Hs. }
  destruct classname as [|c s]; [discriminate H|].
  destruct (Ascii.eqb c "-") eqn:E.
  - apply Ascii.eqb_eq in E. subst c. cbn [JS.every]. now rewrite (Hrest s H).
  - now apply Hrest.
Qed.

Lemma sibling_selector_chars (l : list string) :
  JS.every is_selector_char
    (JS.join EmptyString (map (fun className => "." +:+ className)
                              (List.filter valid_classname l))) = true.
Proof.
  induction l as [|c l IH]; [reflexivity|].
  cbn [List.filter]. destruct (valid_classname c) eqn:E; [|exact IH].
  cbn [map]. unfold JS.join in *.
  assert (Hc : JS.every is_selector_char ("." +:+ c) = true).
  { change ("." +:+ c) with (String "." c). cbn [JS.every].
    apply valid_classname_chars in E. clear IH.
    induction c as [|x c IHc]; [reflexivity|].
    cbn [JS.every] in E |- *. apply andb_true_iff in E as [Hx Hrest].
    unfold is_selector_char at 2. rewrite Hx, orb_true_r. cbn [andb] in *.
    now apply IHc. }
  destruct (map (fun className => "." +:+ className) (List.filter valid_classname l))
    as [|y ys] eqn:Em.
  - exact Hc.
  - cbn [String.concat] in *.
    change (EmptyString +:+ String.concat EmptyString (y :: ys))
      with (String.concat EmptyString (y :: ys)).
    rewrite every_app, Hc. exact IH.
Qed.

Lemma join_empty_nil (l : list string) :
  (forall x, In x l -> x <> EmptyString) ->
  JS.join EmptyString l = EmptyString -> l = [].
Proof.
  destruct l as [|x l]; [reflexivity|]. intros Hne H. exfalso.
  apply (Hne x (or_introl eq_refl)). unfold JS.join in H. cbn [String.concat] in H.
  destruct l as [|y l]; [exact H|].
  destruct x; [reflexivity | discriminate H].
Qed.

(** The sibling selector is made of dots and class-name characters only
    (no blank, bracket or other selector syntax), and it is empty exactly
    when the element has no class of a valid name. *)
Theorem sibling_selector_is_safe (e : element) :
  JS.every is_selector_char (_getSiblingSelector e) = true
  /\ (_getSiblingSelector e = EmptyString
      <-> List.filter valid_classname (classList e) = []).
Proof.
  split; [apply sibling_selector_chars|]. unfold _getSiblingSelector. split.
  - intros H. apply join_empty_nil in H.
    + destruct (List.filter valid_classname (classList e)); [reflexivity | discriminate H].
    + intros x Hx. apply in_map_iff in Hx as [c [<- _]]. discriminate.
  - intros ->. reflexivity.
Qed.

(** The restore operation is idempotent: a second call finds nothing to
    remove and returns the document as it is. *)
Theorem unPatchDomTransform_idempotent (doc : document) :
  unPatchDomTransform (unPatchDomTransform doc) = unPatchDomTransform doc.
Proof.
  unfold unPatchDomTransform at 1.
  change (unPatchDomTransform doc)
    with (remove_each (document_querySelectorAll doc injected_names) doc).
  change ".lindy-font-size, .lindy-text-chain-override, .lindy-node-overrides"
    with injected_names.
  now rewrite remove_matching_none.
Qed.

(** A style gets at most one override rule; each rule begins with the
    selector; there is none exactly when the style is neither a flex row nor
    a grid. *)
Theorem override_rules_shape (currentSelector : string) (activeStyle : CSSStyleDeclaration) :
  length (_getNodeOverrideStyles currentSelector activeStyle) <= 1
  /\ (forall rule, In rule (_getNodeOverrideStyles currentSelector activeStyle) ->
                   JS.startsWith currentSelector rule = true)
  /\ (_getNodeOverrideStyles currentSelector activeStyle = []
      <-> (display activeStyle <> "grid"
           /\ ~ (display activeStyle = "flex" /\ flexDirection activeStyle = "row"))).
Proof.
  rewrite override_styles_cases.
  destruct (String.eqb_spec (display activeStyle) "grid") as [Hgrid | Hgrid].
  - rewrite Hgrid. cbn [String.eqb Ascii.eqb Bool.eqb andb app length In].
    split; [lia | split; [|split]].
    + intros rule [<- | []]. apply startsWith_refl_app.
    + discriminate.
    + intros [H _]. now contradiction H.
  - rewrite app_nil_r.
    destruct (String.eqb_spec (display activeStyle) "flex") as [Hflex | Hflex];
      destruct (String.eqb_spec (flexDirection activeStyle) "row") as [Hrow | Hrow];
      cbn [andb length In].
    + split; [lia | split; [|split]].
      * intros rule [<- | []]. apply startsWith_refl_app.
      * discriminate.
      * intros [_ H]. exfalso. apply H. now split.
    + split; [lia | split; [intros rule [] | split; [|reflexivity]]].
      intros _. split; [exact Hgrid | intros [_ H]; contradiction].
    + split; [lia | split; [intros rule [] | split; [|reflexivity]]].
      intros _. split; [exact Hgrid | intros [H _]; contradiction].
    + split; [lia | split; [intros rule [] | split; [|reflexivity]]].
      intros _. split; [exact Hgrid | intros [H _]; contradiction].
Qed.

End Helpers.

Section BackgroundFrame.
Import StyleChanges.

Variable getBrightness : string -> Q.
Variables originalBackground backgroundColor activeColorTheme : string.

(** The resolver writes the original background variable and, at most, the
    active background colour; every other theme variable keeps its value.
    What it stores as the original background is white or a colour that is
    not brighter than the threshold. *)
Theorem background_resolution_frame (samples : list string) (store : gmap string string)
    (key : string) :
  key <> originalBackground ->
  key <> backgroundColor ->
  _processBackgroundColors getBrightness originalBackground backgroundColor
      activeColorTheme samples store !! key = store !! key
  /\ exists resolved,
       _processBackgroundColors getBrightness originalBackground backgroundColor
         activeColorTheme samples store !! originalBackground = Some resolved
       /\ (resolved = "white" \/ (getBrightness resolved <= 230)%Q).
Proof.
  intros Horig Hbg. unfold _processBackgroundColors, Theme.setCssThemeVariable. cbv zeta.
  set (picked := match samples with
                 | [] => Theme.getThemeValue store originalBackground
                 | first :: _ => first
                 end).
  set (resolved := if negb (Qle_bool (getBrightness picked) 230) then "white" else picked).
  split.
  - match goal with |- (if ?c then _ else _) !! _ = _ => destruct c end;
      rewrite ?lookup_insert_ne by congruence; reflexivity.
  - exists resolved. split.
    + match goal with |- (if ?c then _ else _) !! _ = _ => destruct c end.
      * destruct (decide (backgroundColor = originalBackground)) as [-> | Hne].
        -- apply lookup_insert_eq.
        -- rewrite lookup_insert_ne by exact Hne. apply lookup_insert_eq.
      * apply lookup_insert_eq.
    + unfold resolved. destruct (Qle_bool (getBrightness picked) 230) eqn:E; cbn [negb].
      * right. now apply Qle_bool_iff.
      * now left.
Qed.

End BackgroundFrame.

Section MoreExamples.
Import Dom IterateDOM Props StyleChanges Examples.

Lemma background_resolution_frame_witness :
  let store : gmap string string :=
    {[ "--lindy-pagewidth" := "780px"; "--lindy-color-theme" := "auto" ]} in
  _processBackgroundColors rgb_brightness "--lindy-original-background-color"
      "--lindy-background-color" "--lindy-color-theme" ["rgb(250,250,250)"] store
    !! "--lindy-pagewidth" = store !! "--lindy-pagewidth"
  /\ exists resolved,
       _processBackgroundColors rgb_brightness "--lindy-original-background-color"
         "--lindy-background-color" "--lindy-color-theme" ["rgb(250,250,250)"] store
         !! "--lindy-original-background-color" = Some resolved
       /\ (resolved = "white" \/ (rgb_brightness resolved <= 230)%Q).
Proof.
  intros store.
  apply (background_resolution_frame rgb_brightness "--lindy-original-background-color"
           "--lindy-background-color" "--lindy-color-theme" ["rgb(250,250,250)"] store
           "--lindy-pagewidth"); discriminate.
Defined.

Lemma backgrounds_not_transparent_witness :
  forallb (fun c => negb (JS.includes "rgba(0, 0, 0, 0)" c))
          (backgroundColors (traversal_of body_children_page)) = true
  /\ length (backgroundColors (traversal_of body_children_page))
     <= length (List.filter is_text_container
                            (containerSelectors (traversal_of body_children_page))).
Proof.
  apply (backgrounds_not_transparent counter 10 body_children_page 0
           (traversal_of body_children_page)).
  vm_compute. reflexivity.
Defined.

Example body_children_page_collected :
  map selector_text (containerSelectors (traversal_of body_children_page))
    = ["body.container_123 > p"; "body.container_124 > p";
       "section.container_125[id='main'] > p"; "section.container_126[id='main']"]
  /\ backgroundColors (traversal_of body_children_page) = ["rgb(30, 30, 30)"]
  /\ length (overrideCssDeclarations (traversal_of body_children_page)) = 1
  /\ classList (element_at (dom (traversal_of body_children_page)) 6)
     = ["story"; "container_125"; "container_126"].
Proof. repeat split; vm_compute; reflexivity. Qed.

Lemma traversal_only_adds_container_classes_witness :
  treeOrder (dom (traversal_of body_children_page)) = treeOrder body_children_page
  /\ tagName (element_at (dom (traversal_of body_children_page)) 2)
     = tagName (element_at body_children_page 2)
  /\ elementId (element_at (dom (traversal_of body_children_page)) 2)
     = elementId (element_at body_children_page 2)
  /\ (attributeNames (element_at (dom (traversal_of body_children_page)) 2)
      = attributeNames (element_at body_children_page 2)
      \/ (hasAttribute (element_at body_children_page 2) "class" = false
          /\ attributeNames (element_at (dom (traversal_of body_children_page)) 2)
             = attributeNames (element_at body_children_page 2) ++ ["class"]))
  /\ (forall name, name <> "class" ->
        hasAttribute (element_at (dom (traversal_of body_children_page)) 2) name
        = hasAttribute (element_at body_children_page 2) name)
  /\ parentElement (element_at (dom (traversal_of body_children_page)) 2)
     = parentElement (element_at body_children_page 2)
  /\ exists added,
       classList (element_at (dom (traversal_of body_children_page)) 2)
       = classList (element_at body_children_page 2) ++ added
       /\ forallb (JS.startsWith "container_") added = true
       /\ (added <> [] ->
           hasAttribute (element_at (dom (traversal_of body_children_page)) 2) "class"
           = true).
Proof.
  apply (traversal_only_adds_container_classes counter 10 body_children_page 0
           (traversal_of body_children_page) 2).
  vm_compute. reflexivity.
Defined.

(** On [body_children_page] the body had no class attribute; the traversal
    gives it two classes and the attribute. *)
Example body_gets_class_attribute :
  attributeNames (element_at body_children_page 2) = []
  /\ attributeNames (element_at (dom (traversal_of body_children_page)) 2) = ["class"]
  /\ classList (element_at (dom (traversal_of body_children_page)) 2)
     = ["container_123"; "container_124"].
Proof. split; [|split]; vm_compute; reflexivity. Qed.

Lemma second_walk_changes_nothing_witness :
  iterateParents counter 5 (walk_of two_paragraphs_page 3) (Some 3)
  = Ok (walk_of two_paragraphs_page 3).
Proof.
  apply (second_walk_changes_nothing counter 5 (initial two_paragraphs_page 0)
           (walk_of two_paragraphs_page 3) 3).
  - vm_compute. reflexivity.
  - vm_compute. lia.
Defined.

Lemma body_selected_once_per_child_witness :
  count_selectors ChildParagraphs (documentBody body_children_page)
    (containerSelectors (traversal_of body_children_page))
  = length (List.filter (fun leaf => visible body_children_page leaf
                                     && child_of_body body_children_page leaf)
                        (paragraphs_of body_children_page))
  /\ count_selectors TextContainer (documentBody body_children_page)
       (containerSelectors (traversal_of body_children_page)) = 0
  /\ documentBody body_children_page ∉ seenNodes (traversal_of body_children_page).
Proof.
  apply (body_selected_once_per_child counter 10 body_children_page 0
           (traversal_of body_children_page)).
  vm_compute. reflexivity.
Defined.

Lemma traversal_stays_below_body_witness :
  (forall n, n ∈ seenNodes (traversal_of body_children_page) ->
     exists k, ancestor body_children_page (S k) n
               = Some (documentBody body_children_page))
  /\ (forall c, In c (containerSelectors (traversal_of body_children_page)) ->
        exists k, ancestor body_children_page k (selector_node c)
                  = Some (documentBody body_children_page)).
Proof.
  apply (traversal_stays_below_body counter 10 body_children_page 0
           (traversal_of body_children_page)).
  vm_compute. reflexivity.
Defined.

(** On [body_children_page] one element is marked, the section, and
    selectors are collected for the body and for the section. *)
Example body_children_page_marked :
  6 ∈ seenNodes (traversal_of body_children_page)
  /\ map selector_node (containerSelectors (traversal_of body_children_page)) = [2; 2; 6; 6].
Proof. split; vm_compute; reflexivity. Qed.

End MoreExamples.

(** ** Quoted references *)
Section QuotedReferences.
Import CssOverride Props.

Variable URL_href : string -> string -> option string.

Lemma append_cons x a b : String x a +:+ b = String x (a +:+ b).
Proof. reflexivity. Qed.

Lemma append_nil_l s : EmptyString +:+ s = s.
Proof. reflexivity. Qed.

Local Ltac normalize_append :=
  repeat (rewrite append_cons || rewrite string_append_assoc || rewrite append_nil_l);
  reflexivity.

Lemma has_char_app c a b : JS.has_char c (a +:+ b) = JS.has_char c a || JS.has_char c b.
Proof.
  induction a as [|x a IH]; [reflexivity|].
  change (String x a +:+ b) with (String x (a +:+ b)).
  cbn [JS.has_char]. now rewrite IH, orb_assoc.
Qed.

Lemma lazy_capture_quoted q u :
  q = double_quote \/ q = "'"%char ->
  JS.has_char double_quote u = false -> JS.has_char "'" u = false ->
  lazy_capture (u +:+ String q EmptyString) = u.
Proof.
  intros Hq. induction u as [|c u IH]; intros Hd Ha.
  - destruct Hq as [-> | ->]; reflexivity.
  - apply has_char_cons in Hd as [Hd Hd']. apply has_char_cons in Ha as [Ha Ha'].
    change (String c u +:+ String q EmptyString) with (String c (u +:+ String q EmptyString)).
    cbn [lazy_capture]. unfold is_closing_quotes.
    cbn [strip_optional]. rewrite Hd. cbn [strip_optional]. rewrite Ha.
    cbn [JS.is_empty]. now rewrite IH.
Qed.

(** A reference in double quotes or in apostrophes is resolved inside its
    quotes.  The conditions: the reference is a relative reference as
    [relative_reference] defines it (not empty; its first character is none
    of those of [url(]; no closing parenthesis and no quote in it; not
    starting with [data:], [#], [http://] or [https://]); no further [url(]
    follows; [new URL] accepts it; and the resolved URL holds no dollar
    sign, which [replace] would read as a substitution pattern. *)
Theorem urlRewrite_quoted_reference (baseUrl property : string) (imp : bool) (q : ascii)
    (u href rest : string) :
  q = double_quote \/ q = "'"%char ->
  relative_reference u = true ->
  JS.includes "url(" rest = false ->
  URL_href u baseUrl = Some href ->
  JS.has_char "$" href = false ->
  urlRewrite_Declaration URL_href baseUrl
      {| prop := property;
         value := "url(" +:+ String q (u +:+ String q (")" +:+ rest));
         important := imp; alreadyProcessed := false |}
    = Ok {| prop := property;
            value := "url(" +:+ String q (href +:+ String q (")" +:+ rest));
            important := imp; alreadyProcessed := true |}.
Proof.
  intros Hq Hrel Hrest Hurl Hdollar.
  pose proof Hrel as Hrel'. unfold relative_reference in Hrel'.
  repeat (apply andb_true_iff in Hrel' as [Hrel' ?]).
  repeat match goal with X : negb _ = true |- _ => apply negb_true_iff in X end.
  destruct u as [|c u]; [discriminate Hrel'|].
  apply negb_true_iff in Hrel'. cbn [JS.has_char] in Hrel'.
  repeat (apply orb_false_iff in Hrel' as [? Hrel']).
  match goal with X : JS.has_char double_quote _ = false |- _ =>
    pose proof (proj1 (has_char_cons _ _ _ X)) as Hcd end.
  match goal with X : JS.has_char "'" _ = false |- _ =>
    pose proof (proj1 (has_char_cons _ _ _ X)) as Hca end.
  match goal with X : lookahead_excluded _ = false |- _ => rename X into Hl end.
  assert (Hqc : Ascii.eqb c q = false).
  { rewrite Ascii.eqb_sym. destruct Hq as [-> | ->]; assumption. }
  set (tail := String q (")" +:+ rest)).
  assert (Hopen : strip_optional "'" (strip_optional double_quote (String q (String c u +:+ tail)))
                  = String c u +:+ tail).
  { change (String c u +:+ tail) with (String c (u +:+ tail)).
    destruct Hq as [-> | ->].
    - cbn [strip_optional]. rewrite Ascii.eqb_refl. cbn [strip_optional]. now rewrite Hca.
    - change (strip_optional double_quote (String "'" (String c (u +:+ tail))))
        with (String "'"%char (String c (u +:+ tail))).
      cbn [strip_optional]. now rewrite Ascii.eqb_refl. }
  assert (Hlook : lookahead_excluded (String q (String c u +:+ tail)) = false).
  { unfold lookahead_excluded in Hl |- *. rewrite Hopen.
    rewrite (strip_optional_other double_quote (String c u)) in Hl by assumption.
    rewrite (strip_optional_other "'" (String c u)) in Hl by assumption.
    unfold tail.
    assert (Hq' : forall p, JS.has_char q p = false ->
                  JS.startsWith p (String c u +:+ String q (")" +:+ rest))
                  = JS.startsWith p (String c u))
      by (intros p Hp; now apply startsWith_snoc_other).
    rewrite !Hq' by (destruct Hq as [-> | ->]; reflexivity). exact Hl. }
  assert (Hmatch : matchAll_url ("url(" +:+ String q (String c u +:+ tail)) = [String c u]).
  { unfold matchAll_url.
    change ("url(" +:+ String q (String c u +:+ tail))
      with (String "u" ("rl(" +:+ String q (String c u +:+ tail))).
    cbn [url_captures_from]. unfold match_url_at.
    change (JS.startsWith "url(" (String "u" ("rl(" +:+ String q (String c u +:+ tail))))
      with true. cbv iota.
    change (JS.drop 4 (String "u" ("rl(" +:+ String q (String c u +:+ tail))))
      with (String q (String c u +:+ tail)).
    rewrite Hlook, Hopen. unfold tail.
    replace (String c u +:+ String q (")" +:+ rest))
      with ((String c u +:+ String q EmptyString) +:+ String ")" rest)
      by (rewrite string_append_assoc; reflexivity).
    rewrite until_paren_app
      by (rewrite has_char_app; match goal with X : JS.has_char ")" _ = false |- _ =>
            rewrite X end; destruct Hq as [-> | ->]; reflexivity).
    rewrite lazy_capture_quoted by assumption.
    f_equal.
    replace ("rl(" +:+ String q ((String c u +:+ String q EmptyString) +:+ String ")" rest))
      with (("rl(" +:+ String q (String c u +:+ String q EmptyString) +:+ ")") +:+ rest)
      by normalize_append.
    replace (String.length
               (String "u"
                  (("rl(" +:+ String q (String c u +:+ String q EmptyString) +:+ ")") +:+ rest))
             - String.length rest - 1)
      with (String.length ("rl(" +:+ String q (String c u +:+ String q EmptyString) +:+ ")"))
      by (cbn [String.length]; rewrite !string_length_app; cbn [String.length]; lia).
    rewrite url_captures_skip_prefix. now apply url_captures_none. }
  unfold urlRewrite_Declaration. cbn [value alreadyProcessed prop important].
  change (JS.startsWith "url(" ("url(" +:+ String q (String c u +:+ tail))) with true.
  cbv iota.
  assert (Hdata : JS.startsWith "url(data:" ("url(" +:+ String q (String c u +:+ tail)) = false).
  { change (JS.startsWith "url(data:" ("url(" +:+ String q (String c u +:+ tail)))
      with (JS.startsWith "data:" (String q (String c u +:+ tail))).
    destruct Hq as [-> | ->]; reflexivity. }
  rewrite Hdata, Hmatch.
  cbn [fold_left]. unfold rewrite_match, new_URL. cbn [bind]. rewrite Hurl. cbn [bind].
  do 2 f_equal. unfold JS.replace.
  assert (Hi : JS.indexOf (String c u) ("url(" +:+ String q (String c u +:+ tail)) = Some 5).
  { change ("url(" +:+ String q (String c u +:+ tail))
      with (String "u" (String "r" (String "l" (String "(" (String q (String c u +:+ tail)))))).
    cbn [JS.indexOf JS.startsWith].
    repeat match goal with X : Ascii.eqb c _ = false |- _ => rewrite X; clear X end.
    cbn [option_map].
    change (if JS.startsWith (String c u) (String c u +:+ tail) then Some 0
            else match String c u +:+ tail with
                 | EmptyString => None
                 | String _ s' => option_map S (JS.indexOf (String c u) s')
                 end)
      with (JS.indexOf (String c u) (String c u +:+ tail)).
    now rewrite indexOf_prefix. }
  rewrite Hi.
  change (JS.take 5 ("url(" +:+ String q (String c u +:+ tail)))
    with ("url(" +:+ String q EmptyString).
  change (JS.drop (5 + String.length (String c u)) ("url(" +:+ String q (String c u +:+ tail)))
    with (JS.drop (String.length (String c u)) (String c u +:+ tail)).
  rewrite drop_app_length.
  rewrite getSubstitution_plain by assumption. reflexivity.
Qed.

End QuotedReferences.

Section QuotedReferenceExamples.
Import CssOverride Props Examples.

Lemma urlRewrite_quoted_reference_witness :
  urlRewrite_Declaration resolve "https://site.com/css/a.css"
      {| prop := "src";
         value := "url(" +:+ String "'" ("fonts/a.woff" +:+ String "'" (")" +:+ " format(woff)"));
         important := false; alreadyProcessed := false |}
    = Ok {| prop := "src";
            value := "url(" +:+ String "'" ("https://site.com/css/fonts/a.woff"
                                            +:+ String "'" (")" +:+ " format(woff)"));
            important := false; alreadyProcessed := true |}.
Proof.
  apply (urlRewrite_quoted_reference resolve "https://site.com/css/a.css" "src" false
           "'" "fonts/a.woff" "https://site.com/css/fonts/a.woff" " format(woff)");
    [right; reflexivity | vm_compute; reflexivity ..].
Defined.

End QuotedReferenceExamples.
